(** * The Flask-backed client shim: query builder and session facade

    A shallow embedding of [src/integrations/supabase/client.ts] (the
    chainable query builder, the [api] helper and the polling auth facade)
    and of the [wrap]/[run] helpers of [src/lib/localFlaskClient.ts].

    Conventions of the embedding:
    - a JavaScript value is a term of [Js.value]; numbers are the
      integer-valued doubles (the pagination bounds the builder handles),
      with the rounding of their arithmetic and the numerals [String(n)]
      prints written out ([Js.number_sub], [Js.num_to_string]);
    - a string is a [string] of bytes (UTF-8 for text outside ASCII);
    - a promise is its settled [outcome]: [Resolved a] or [Rejected e];
    - the network is a [transport]: the outcome of [fetch] as a function
      of the requests already sent and of the request at hand.  [fetch],
      [res.json()], [new URL] and timers are platform functions: their
      results are inputs of the model;
    - a call that is not [async] has a [completion]: it returns or it
      throws, and only what it returns can be a promise. *)

From Stdlib Require Import ZArith String Ascii List Bool Lia DecimalString.
Import ListNotations.
Local Open Scope string_scope.
Set Warnings "-register-all".

(* ================================================================== *)
(** ** JavaScript values and the built-ins the client calls            *)
(* ================================================================== *)

Module Js.

Inductive value : Type :=
| VUndef
| VNull
| VBool (b : bool)
| VNum (n : Z)
| VStr (s : string)
| VArr (elems : list value)
| VObj (props : list (string * value))
| VError (name message : string).

(** The completion of a call of a function that is not [async], or of a
    constructor: it returns, or it throws before it returns. *)
Inductive completion (A : Type) : Type :=
| Returned (a : A)
| Thrown (reason : value).
Arguments Returned {A} a.
Arguments Thrown {A} reason.

(** A settled promise (or the completion of an async function body). *)
Inductive outcome (A : Type) : Type :=
| Resolved (a : A)
| Rejected (reason : value).
Arguments Resolved {A} a.
Arguments Rejected {A} reason.

Definition dquote : ascii := ascii_of_nat 34.

(** ToBoolean. *)
Definition truthy (v : value) : bool :=
  match v with
  | VUndef | VNull => false
  | VBool b => b
  | VNum n => negb (n =? 0)%Z
  | VStr s => negb (s =? EmptyString)
  | VArr _ | VObj _ | VError _ _ => true
  end.

Definition nullish (v : value) : bool :=
  match v with
  | VUndef | VNull => true
  | _ => false
  end.

(** [a || b] and [a && b] and [a ?? b] on values. *)
Definition or_else (a b : value) : value := if truthy a then a else b.
Definition and_then (a b : value) : value := if truthy a then b else a.
Definition coalesce (a b : value) : value := if nullish a then b else a.

Fixpoint lookup (k : string) (props : list (string * value)) : option value :=
  match props with
  | [] => None
  | (k', v) :: rest => if k =? k' then Some v else lookup k rest
  end.

(** [v.k] for a [v] that is neither null nor undefined, at the property
    names the client reads ([error], [user]): own properties of a plain
    object; primitives, arrays and Error objects have no such property. *)
Definition get_prop (v : value) (k : string) : value :=
  match v with
  | VObj props => match lookup k props with Some x => x | None => VUndef end
  | _ => VUndef
  end.

(** [v?.k] *)
Definition get_prop_opt (v : value) (k : string) : value :=
  if nullish v then VUndef else get_prop v k.

(** The TypeError of a property read on null or undefined. *)
Definition type_error : value :=
  VError "TypeError" "Cannot read properties of null or undefined".

(** [v.k] as an expression that may throw. *)
Definition member (v : value) (k : string) : outcome value :=
  if nullish v then Rejected type_error else Resolved (get_prop v k).

Definition is_array (v : value) : bool :=
  match v with
  | VArr _ => true
  | _ => false
  end.

(** [arr[0]]: undefined on the empty array. *)
Definition first_elem (v : value) : value :=
  match v with
  | VArr (x :: _) => x
  | _ => VUndef
  end.

(** *** Numbers

    A number of the model is an integer-valued finite double, held as
    the integer it is: [is_number] tells which integers are doubles.
    Every integer up to 2^53 in magnitude is one; beyond, only the
    multiples of the spacing of its binade. *)

(** The exact decimal numeral of an integer. *)
Definition decimal (n : Z) : string :=
  NilZero.string_of_int (Z.to_int n).

Definition two53 : Z := 9007199254740992.

(** [Number.isSafeInteger(n)] *)
Definition safe_integer (n : Z) : bool := (Z.abs n <? two53)%Z.

(** The double nearest to an integer below 2^1024 in magnitude, ties to
    the even significand: the rounding of every arithmetic result. *)
Definition round_to_double (z : Z) : Z :=
  let m := Z.abs z in
  if (m <=? two53)%Z then z
  else
    let shift := (Z.log2 m - 52)%Z in
    let q := (m / 2 ^ shift)%Z in
    let r := (m mod 2 ^ shift)%Z in
    let half := (2 ^ (shift - 1))%Z in
    let q' := if (r <? half)%Z then q
              else if (half <? r)%Z then (q + 1)%Z
              else if Z.even q then q else (q + 1)%Z in
    (Z.sgn z * (q' * 2 ^ shift))%Z.

Definition is_number (z : Z) : bool :=
  (round_to_double z =? z)%Z && (Z.abs z <? 2 ^ 1024)%Z.

(** [a - b] on numbers. *)
Definition number_sub (a b : Z) : Z := round_to_double (a - b).

Definition digits (m : Z) : Z := Z.of_nat (String.length (decimal m)).

(** The decimal with the fewest significant digits that still rounds to
    the double [m] (Number::toString, steps on n, k and s): for k = 1, 2,
    ... significant digits, the two neighbours of [m] with k digits are
    tried; of two that fit, the closer, then the even one. *)
Fixpoint shortest (fuel : nat) (k : Z) (m : Z) : Z :=
  match fuel with
  | O => m
  | S fuel' =>
      let scale := (10 ^ (digits m - k))%Z in
      let lo := (m / scale * scale)%Z in
      let hi := (lo + scale)%Z in
      let lo_ok := (round_to_double lo =? m)%Z in
      let hi_ok := (round_to_double hi =? m)%Z in
      if lo_ok && hi_ok then
        if (m - lo <? hi - m)%Z then lo
        else if (hi - m <? m - lo)%Z then hi
        else if Z.even (lo / scale) then lo else hi
      else if lo_ok then lo
      else if hi_ok then hi
      else shortest fuel' (k + 1)%Z m
  end.

Fixpoint trim_zeros (s : string) : string :=
  match s with
  | EmptyString => EmptyString
  | String c rest =>
      match trim_zeros rest with
      | EmptyString =>
          if Ascii.eqb c "0" then EmptyString else String c EmptyString
      | r => String c r
      end
  end.

(** The exponent notation of an integer of more than 21 digits. *)
Definition exponential (v : Z) : string :=
  let ds := decimal v in
  let e := decimal (Z.of_nat (String.length ds) - 1) in
  match trim_zeros ds with
  | EmptyString => ds
  | String d EmptyString => String d ("e+" ++ e)
  | String d rest => String d ("." ++ rest ++ "e+" ++ e)
  end.

Definition big_to_string (m : Z) : string :=
  let v := shortest 17 1 m in
  if (v <? 10 ^ 21)%Z then decimal v else exponential v.

(** [String(n)] for a number: the exact decimal of a safe integer, the
    shortest decimal that reads back as the same double beyond. *)
Definition num_to_string (n : Z) : string :=
  if safe_integer n then decimal n
  else if (n <? 0)%Z then "-" ++ big_to_string (Z.abs n)
  else big_to_string n.

Definition error_to_string (name message : string) : string :=
  if name =? EmptyString then message
  else if message =? EmptyString then name
  else name ++ ": " ++ message.

(** [String(v)]. *)
Fixpoint js_String (v : value) : string :=
  match v with
  | VUndef => "undefined"
  | VNull => "null"
  | VBool true => "true"
  | VBool false => "false"
  | VNum n => num_to_string n
  | VStr s => s
  | VArr l =>
      (fix join (l : list value) : string :=
         match l with
         | [] => EmptyString
         | x :: rest =>
             (if nullish x then EmptyString else js_String x) ++
             match rest with
             | [] => EmptyString
             | _ :: _ => "," ++ join rest
             end
         end) l
  | VObj _ => "[object Object]"
  | VError name message => error_to_string name message
  end.

Definition hex_lower (n : N) : ascii :=
  ascii_of_N (if (n <? 10)%N then 48 + n else 87 + n).

Definition hex_upper (n : N) : ascii :=
  ascii_of_N (if (n <? 10)%N then 48 + n else 55 + n).

(** The escape of one character inside a JSON string literal. *)
Definition json_escape_char (c : ascii) : string :=
  let n := N_of_ascii c in
  if (n =? 34)%N then String "\" (String dquote EmptyString)
  else if (n =? 92)%N then "\\"
  else if (n =? 8)%N then "\b"
  else if (n =? 9)%N then "\t"
  else if (n =? 10)%N then "\n"
  else if (n =? 12)%N then "\f"
  else if (n =? 13)%N then "\r"
  else if (n <? 32)%N then
    "\u00" ++ String (hex_lower (n / 16)) (String (hex_lower (n mod 16)) EmptyString)
  else String c EmptyString.

Fixpoint json_escape (s : string) : string :=
  match s with
  | EmptyString => EmptyString
  | String c rest => json_escape_char c ++ json_escape rest
  end.

Definition json_quote (s : string) : string :=
  String dquote (json_escape s) ++ String dquote EmptyString.

Fixpoint join_with (sep : string) (l : list string) : string :=
  match l with
  | [] => EmptyString
  | [x] => x
  | x :: rest => x ++ sep ++ join_with sep rest
  end.

(** [JSON.stringify(v)]: [None] is the result undefined. *)
Fixpoint JSON_stringify (v : value) : option string :=
  match v with
  | VUndef => None
  | VNull => Some "null"
  | VBool true => Some "true"
  | VBool false => Some "false"
  | VNum n => Some (num_to_string n)
  | VStr s => Some (json_quote s)
  | VArr l =>
      let items :=
        (fix go (l : list value) : list string :=
           match l with
           | [] => []
           | x :: rest =>
               match JSON_stringify x with
               | Some s => s
               | None => "null"
               end :: go rest
           end) l in
      Some ("[" ++ join_with "," items ++ "]")
  | VObj props =>
      let items :=
        (fix go (l : list (string * value)) : list string :=
           match l with
           | [] => []
           | (k, x) :: rest =>
               match JSON_stringify x with
               | Some s => (json_quote k ++ ":" ++ s) :: go rest
               | None => go rest
               end
           end) props in
      Some ("{" ++ join_with "," items ++ "}")
  | VError _ _ => Some "{}"
  end.

(** [s.includes(needle)] *)
Fixpoint includes (needle s : string) : bool :=
  prefix needle s ||
  match s with
  | EmptyString => false
  | String _ rest => includes needle rest
  end.

(** [s.replace(/\/+$/, EmptyString)]: drop the slashes that end [s]. *)
Fixpoint strip_trailing_slashes (s : string) : string :=
  match s with
  | EmptyString => EmptyString
  | String c rest =>
      let r := strip_trailing_slashes rest in
      if Ascii.eqb c "/" && (r =? EmptyString) then EmptyString else String c r
  end.

(** The canonical array-index reading of a property key: a decimal numeral
    without leading zero below 2^32 - 1.  Such keys enumerate first, in
    ascending order, before the other keys of an object. *)
Fixpoint digits_value (s : string) (acc : N) : option N :=
  match s with
  | EmptyString => Some acc
  | String c rest =>
      let n := N_of_ascii c in
      if ((48 <=? n) && (n <=? 57))%N
      then digits_value rest (acc * 10 + (n - 48))%N
      else None
  end.

Definition array_index (k : string) : option N :=
  match k with
  | EmptyString => None
  | String c rest =>
      if Ascii.eqb c "0" && negb (rest =? EmptyString) then None
      else match digits_value k 0 with
           | Some n => if (n <? 4294967295)%N then Some n else None
           | None => None
           end
  end.

(** Insertion of a new key at its place in the enumeration order. *)
Fixpoint insert_key (k : string) (v : value) (o : list (string * value))
  : list (string * value) :=
  match o with
  | [] => [(k, v)]
  | (k', v') :: rest =>
      match array_index k, array_index k' with
      | Some i, Some j =>
          if (i <? j)%N then (k, v) :: o else (k', v') :: insert_key k v rest
      | Some _, None => (k, v) :: o
      | None, _ => (k', v') :: insert_key k v rest
      end
  end.

Fixpoint replace_key (k : string) (v : value) (o : list (string * value))
  : list (string * value) :=
  match o with
  | [] => []
  | (k', v') :: rest =>
      if k =? k' then (k', v) :: rest else (k', v') :: replace_key k v rest
  end.

(** The write of an own data property [k] of an object held in
    enumeration order: an own key keeps its place, a new one is inserted. *)
Definition obj_set (k : string) (v : value) (o : list (string * value))
  : list (string * value) :=
  match lookup k o with
  | Some _ => replace_key k v o
  | None => insert_key k v o
  end.

(** The prototype of an object: [Object.prototype] for an object
    literal, [null], or an object value put there by an assignment. *)
Inductive prototype : Type :=
| ProtoObject
| ProtoNull
| ProtoValue (v : value).

(** What an assignment to the key [__proto__] meets on the prototype
    chain of an object that has no such own key: an own data property of
    an object value on the chain, the accessor of [Object.prototype]
    (object, array and Error values inherit from it), or nothing when
    the chain ends in [null]. *)
Inductive proto_key : Type := FoundData | FoundAccessor | FoundNothing.

Definition find_proto_key (p : prototype) : proto_key :=
  match p with
  | ProtoObject => FoundAccessor
  | ProtoNull => FoundNothing
  | ProtoValue (VObj props) =>
      match lookup "__proto__" props with
      | Some _ => FoundData
      | None => FoundAccessor
      end
  | ProtoValue _ => FoundAccessor
  end.

(** The setter of [Object.prototype.__proto__]: an object or [null]
    becomes the prototype, any other value is ignored. *)
Definition set_prototype (v : value) (p : prototype) : prototype :=
  match v with
  | VNull => ProtoNull
  | VArr _ | VObj _ | VError _ _ => ProtoValue v
  | _ => p
  end.

(** [o[k] = v] on an object with its own properties and its prototype.
    Every key but [__proto__] is written as an own data property (the
    properties [Object.prototype] has under other names are writable data
    properties).  For [__proto__] an own key is overwritten; without one
    the assignment goes up the prototype chain, where the accessor of
    [Object.prototype] changes the prototype and creates no property. *)
Definition obj_assign (k : string) (v : value)
  (o : list (string * value) * prototype) : list (string * value) * prototype :=
  if k =? "__proto__" then
    match lookup k (fst o) with
    | Some _ => (replace_key k v (fst o), snd o)
    | None =>
        match find_proto_key (snd o) with
        | FoundAccessor => (fst o, set_prototype v (snd o))
        | _ => (insert_key k v (fst o), snd o)
        end
    end
  else (obj_set k v (fst o), snd o).

(** [encodeURIComponent(s)]: every byte but the unreserved marks
    A-Z a-z 0-9 - _ . ! ~ * ' ( ) is written as a percent escape. *)
Definition uri_unreserved (c : ascii) : bool :=
  let n := N_of_ascii c in
  ((48 <=? n) && (n <=? 57) || (65 <=? n) && (n <=? 90) ||
   (97 <=? n) && (n <=? 122) ||
   (n =? 45) || (n =? 95) || (n =? 46) || (n =? 33) || (n =? 126) ||
   (n =? 42) || (n =? 39) || (n =? 40) || (n =? 41))%N.

Definition uri_encode_char (c : ascii) : string :=
  let n := N_of_ascii c in
  if uri_unreserved c then String c EmptyString
  else String "%" (String (hex_upper (n / 16))
                     (String (hex_upper (n mod 16)) EmptyString)).

Fixpoint encodeURIComponent (s : string) : string :=
  match s with
  | EmptyString => EmptyString
  | String c rest => uri_encode_char c ++ encodeURIComponent rest
  end.

End Js.

(* ================================================================== *)
(** ** Requests, responses and the transport                           *)
(* ================================================================== *)

Module Http.
Import Js.

Inductive body : Type :=
| BodyText (s : string)
| BodyForm (fields : list (string * string)).

Record request : Type := {
  req_url : string;
  req_method : option string;          (* None: the default of fetch, GET *)
  req_headers : list (string * string);
  req_body : option body;
  req_credentials : string
}.

Record response : Type := {
  res_ok : bool;
  res_statusText : string;
  res_content_type : option string;    (* res.headers.get of content-type *)
  res_json : outcome value;            (* the settled res.json() *)
  res_text : outcome string            (* the settled res.text() *)
}.

Inductive fetch_outcome : Type :=
| FetchRejected (e : value)            (* no response: network failure *)
| FetchResponse (r : response).

(** What the network answers to a request, given the requests sent before. *)
Definition transport : Type := list request -> request -> fetch_outcome.

(** application/x-www-form-urlencoded, as [URLSearchParams.toString]. *)
Definition form_safe (c : ascii) : bool :=
  let n := N_of_ascii c in
  ((48 <=? n) && (n <=? 57) || (65 <=? n) && (n <=? 90) ||
   (97 <=? n) && (n <=? 122) ||
   (n =? 42) || (n =? 45) || (n =? 46) || (n =? 95))%N.

Definition form_encode_char (c : ascii) : string :=
  let n := N_of_ascii c in
  if (n =? 32)%N then "+"
  else if form_safe c then String c EmptyString
  else String "%" (String (hex_upper (n / 16))
                     (String (hex_upper (n mod 16)) EmptyString)).

Fixpoint form_encode (s : string) : string :=
  match s with
  | EmptyString => EmptyString
  | String c rest => form_encode_char c ++ form_encode rest
  end.

(** A [URLSearchParams]: its list of name-value pairs. *)
Definition URLSearchParams : Type := list (string * string).

Definition params_append (name val : string) (p : URLSearchParams)
  : URLSearchParams :=
  (p ++ [(name, val)])%list.

Definition params_toString (p : URLSearchParams) : string :=
  join_with "&" (map (fun nv => form_encode (fst nv) ++ "=" ++ form_encode (snd nv)) p).

(** [params.getAll(name)] *)
Definition getAll (name : string) (p : URLSearchParams) : list string :=
  map snd (filter (fun nv => fst nv =? name) p).

End Http.

(* ================================================================== *)
(** ** The page: network log, module state, timers                     *)
(* ================================================================== *)

Module Page.
Import Js Http.

(** The closure of one [onAuthStateChange] call: its variable [last] and
    whether its interval timer is still set.  A subscription is named by
    its position in [subscriptions]; so is its callback. *)
Record subscription : Type := {
  last : option string;
  active : bool
}.

(** One invocation [callback(event, session)]. *)
Record notification : Type := {
  n_callback : nat;
  n_event : string;
  n_session : value
}.

Record world : Type := {
  sent : list request;                       (* requests handed to fetch *)
  __currentSession : value;                  (* the cached session *)
  subscriptions : list subscription;
  inflight : list (nat * fetch_outcome);     (* polls awaiting api, by subscription *)
  notified : list notification               (* callback invocations, oldest first *)
}.

(** The state of a freshly loaded module. *)
Definition fresh : world :=
  {| sent := []; __currentSession := VNull; subscriptions := [];
     inflight := []; notified := [] |}.

(** An asynchronous computation run to completion: it changes the world
    and settles. *)
Definition Async (A : Type) : Type := world -> outcome A * world.

Definition ret {A} (a : A) : Async A := fun w => (Resolved a, w).

Definition settle {A} (o : outcome A) : Async A := fun w => (o, w).

(** [await m] followed by [k]: a rejection of [m] is rethrown. *)
Definition bind {A B} (m : Async A) (k : A -> Async B) : Async B :=
  fun w =>
    match m w with
    | (Resolved a, w') => k a w'
    | (Rejected e, w') => (Rejected e, w')
    end.

(** An expression evaluated in the body of an [async] function: what it
    throws rejects the promise of the function. *)
Definition attempt {A} (c : completion A) : Async A :=
  match c with
  | Returned a => ret a
  | Thrown e => settle (Rejected e)
  end.

(** [await f(...)] in the body of an [async] function, for a function
    [f] that is not [async] and returns a promise: what the call throws
    is thrown at the [await], as the rejection of the promise is. *)
Definition await_call {A} (c : completion (Async A)) : Async A :=
  match c with
  | Returned p => p
  | Thrown e => settle (Rejected e)
  end.

Definition log_request (r : request) (w : world) : world :=
  {| sent := sent w ++ [r]; __currentSession := __currentSession w;
     subscriptions := subscriptions w; inflight := inflight w;
     notified := notified w |}.

Definition fetch (net : transport) (r : request) : Async response :=
  fun w =>
    (match net (sent w) r with
     | FetchRejected e => Rejected e
     | FetchResponse res => Resolved res
     end, log_request r w).

(** [__currentSession = v] *)
Definition set_currentSession (v : value) : Async unit :=
  fun w =>
    (Resolved tt,
     {| sent := sent w; __currentSession := v;
        subscriptions := subscriptions w; inflight := inflight w;
        notified := notified w |}).

End Page.

Declare Scope async_scope.
Notation "x <- m ;; k" := (Page.bind m (fun x => k))
  (at level 61, m at next level, right associativity) : async_scope.
Notation "m ;;; k" := (Page.bind m (fun _ => k))
  (at level 61, right associativity) : async_scope.

(* ================================================================== *)
(** ** src/integrations/supabase/client.ts                             *)
(* ================================================================== *)

Module state.
Inductive http_method : Type := GET | POST | PATCH | DELETE.

Record t : Type := {
  filters : list (string * Js.value);
  filters_proto : Js.prototype;            (* the prototype of [filters] *)
  order : option (string * bool);          (* column, ascending *)
  range : option (Z * Z);                  (* from, to *)
  limit : option Z;
  method : http_method;
  payload : Js.value
}.
End state.

(** The result object [{ data, error }]. *)
Record result : Type := { data : Js.value; error : Js.value }.

(** The options object of [api]. *)
Record api_opts : Type := {
  opt_method : option string;
  opt_body : option Http.body;
  opt_headers : option (list (string * string))
}.

Definition no_opts : api_opts :=
  {| opt_method := None; opt_body := None; opt_headers := None |}.

Section Api.
Import Js Http Page.
Local Open Scope async_scope.

(** [API_BASE] is read from localStorage when the module loads. *)
Variable API_BASE : string.
Variable net : transport.

(** The request [api] hands to [fetch]: the spread of [opts] comes last,
    so a [headers] key of [opts] replaces the merged headers. *)
Definition api_request (path : string) (opts : api_opts) : request :=
  {| req_url := strip_trailing_slashes (API_BASE ++ path);
     req_credentials := "include";
     req_headers :=
       match opt_headers opts with
       | Some h => h
       | None =>
           match opt_body opts with
           | Some (BodyForm _) => []
           | _ => [("Content-Type", "application/json")]
           end
       end;
     req_method := opt_method opts;
     req_body := opt_body opts |}.

(** The part of [api] after [fetch] has answered. *)
Definition api_finish (res : response) : outcome result :=
  let isJson :=
    match res_content_type res with
    | Some ct => includes "application/json" ct
    | None => false
    end in
  let parsed :=
    if isJson then res_json res
    else match res_text res with
         | Resolved s => Resolved (VStr s)
         | Rejected e => Rejected e
         end in
  match parsed with
  | Rejected e => Rejected e
  | Resolved d =>
      if negb (res_ok res) then
        Resolved
          {| data := VNull;
             error := or_else (and_then d (or_else (get_prop d "error") d))
                              (VStr (res_statusText res)) |}
      else Resolved {| data := d; error := VNull |}
  end.

Definition api (path : string) (opts : api_opts) : Async result :=
  res <- fetch net (api_request path opts) ;;
  settle (api_finish res).

(** What an awaited [api] call settles to, given what [fetch] did. *)
Definition api_settle (o : fetch_outcome) : outcome result :=
  match o with
  | FetchRejected e => Rejected e
  | FetchResponse res => api_finish res
  end.

End Api.

(** *** The query builder *)

Section QueryBuilder.
Import Js Http Page.

(** A builder together with the state its closures share.  Every method
    of the chain returns the same builder object; the model threads it. *)
Record builder_t : Type := {
  table : string;
  st : state.t
}.

Definition makeQueryBuilder (table : string) : builder_t :=
  {| table := table;
     st := {| state.filters := []; state.filters_proto := ProtoObject;
              state.order := None; state.range := None;
              state.limit := None; state.method := state.GET;
              state.payload := VNull |} |}.

(** The [params] of [buildQS] after its appends. *)
Definition buildParams (s : state.t) : URLSearchParams :=
  let params : URLSearchParams := [] in
  let params :=
    fold_left (fun p kv => params_append ("eq." ++ fst kv) (js_String (snd kv)) p)
              (state.filters s) params in
  let params :=
    match state.order s with
    | Some (column, ascending) =>
        params_append "order"
          (column ++ "." ++ (if ascending then "asc" else "desc")) params
    | None => params
    end in
  match state.range s with
  | Some (from, to) =>
      let params := params_append "from" (num_to_string from) params in
      params_append "to" (num_to_string to) params
  | None =>
      match state.limit s with
      | Some n =>
          let params := params_append "from" "0" params in
          params_append "to" (num_to_string (Z.max 0 (number_sub n 1))) params
      | None => params
      end
  end.

Definition buildQS (s : state.t) : string :=
  let qs := params_toString (buildParams s) in
  if qs =? EmptyString then EmptyString else "?" ++ qs.

Definition json_body (v : value) : option body :=
  option_map BodyText (JSON_stringify v).

Variable API_BASE : string.
Variable net : transport.

(** The request [run] hands to [api], by the same switch. *)
Definition run_request (b : builder_t) : request :=
  let url := "/db/" ++ table b ++ buildQS (st b) in
  match state.method (st b) with
  | state.POST =>
      api_request API_BASE url
        {| opt_method := Some "POST";
           opt_body := json_body (state.payload (st b));
           opt_headers := None |}
  | state.PATCH =>
      api_request API_BASE url
        {| opt_method := Some "PATCH";
           opt_body := json_body (state.payload (st b));
           opt_headers := None |}
  | state.DELETE =>
      api_request API_BASE url
        {| opt_method := Some "DELETE"; opt_body := None; opt_headers := None |}
  | state.GET => api_request API_BASE url no_opts
  end.

Definition run (b : builder_t) : Async result :=
  let url := "/db/" ++ table b ++ buildQS (st b) in
  match state.method (st b) with
  | state.POST =>
      api API_BASE net url {| opt_method := Some "POST";
                 opt_body := json_body (state.payload (st b));
                 opt_headers := None |}
  | state.PATCH =>
      api API_BASE net url {| opt_method := Some "PATCH";
                 opt_body := json_body (state.payload (st b));
                 opt_headers := None |}
  | state.DELETE =>
      api API_BASE net url {| opt_method := Some "DELETE"; opt_body := None;
                 opt_headers := None |}
  | state.GET => api API_BASE net url no_opts
  end.

End QueryBuilder.

Definition with_state (b : builder_t) (s : state.t) : builder_t :=
  {| table := table b; st := s |}.

(** The second argument of [order]. *)
Record order_opts : Type := { ascending : option bool }.

Module builder.
Import Js Http Page.
Local Open Scope async_scope.

Definition select (_columns : option string) (b : builder_t) : builder_t := b.

Definition order (column : string) (opts : option order_opts) (b : builder_t)
  : builder_t :=
  let asc :=
    match opts with
    | Some {| ascending := Some a |} => a
    | _ => true
    end in
  with_state b
    {| state.filters := state.filters (st b);
       state.filters_proto := state.filters_proto (st b);
       state.order := Some (column, asc);
       state.range := state.range (st b);
       state.limit := state.limit (st b);
       state.method := state.method (st b);
       state.payload := state.payload (st b) |}.

Definition range (from to : Z) (b : builder_t) : builder_t :=
  with_state b
    {| state.filters := state.filters (st b);
       state.filters_proto := state.filters_proto (st b);
       state.order := state.order (st b);
       state.range := Some (from, to);
       state.limit := state.limit (st b);
       state.method := state.method (st b);
       state.payload := state.payload (st b) |}.

Definition limit (n : Z) (b : builder_t) : builder_t :=
  with_state b
    {| state.filters := state.filters (st b);
       state.filters_proto := state.filters_proto (st b);
       state.order := state.order (st b);
       state.range := state.range (st b);
       state.limit := Some n;
       state.method := state.method (st b);
       state.payload := state.payload (st b) |}.

Definition eq (column : string) (v : value) (b : builder_t) : builder_t :=
  let filters :=
    obj_assign column v (state.filters (st b), state.filters_proto (st b)) in
  with_state b
    {| state.filters := fst filters;
       state.filters_proto := snd filters;
       state.order := state.order (st b);
       state.range := state.range (st b);
       state.limit := state.limit (st b);
       state.method := state.method (st b);
       state.payload := state.payload (st b) |}.

Definition insert (payload : value) (b : builder_t) : builder_t :=
  with_state b
    {| state.filters := state.filters (st b);
       state.filters_proto := state.filters_proto (st b);
       state.order := state.order (st b);
       state.range := state.range (st b);
       state.limit := state.limit (st b);
       state.method := state.POST;
       state.payload := payload |}.

Definition update (payload : value) (b : builder_t) : builder_t :=
  with_state b
    {| state.filters := state.filters (st b);
       state.filters_proto := state.filters_proto (st b);
       state.order := state.order (st b);
       state.range := state.range (st b);
       state.limit := state.limit (st b);
       state.method := state.PATCH;
       state.payload := payload |}.

(** [delete()] marks the method; the object it returns has the one
    method [eq], which filters and runs at once. *)
Definition delete (b : builder_t) : builder_t :=
  with_state b
    {| state.filters := state.filters (st b);
       state.filters_proto := state.filters_proto (st b);
       state.order := state.order (st b);
       state.range := state.range (st b);
       state.limit := state.limit (st b);
       state.method := state.DELETE;
       state.payload := state.payload (st b) |}.

Section Terminal.
Variable API_BASE : string.
Variable net : transport.

Definition delete_eq (column : string) (v : value) (b : builder_t)
  : Async result :=
  run API_BASE net (eq column v b).

Definition single (b : builder_t) : Async result :=
  res <- run API_BASE net b ;;
  if truthy (error res) then ret res
  else if is_array (data res) then
    ret {| data := coalesce (first_elem (data res)) VNull; error := VNull |}
  else ret res.

Definition maybeSingle (b : builder_t) : Async result :=
  res <- run API_BASE net b ;;
  if truthy (error res) then ret res
  else if is_array (data res) then
    ret {| data := coalesce (first_elem (data res)) VNull; error := VNull |}
  else ret res.

(** [then(onFulfilled, onRejected)]: every call runs the request. *)
Definition then_ {B} (onFulfilled : result -> outcome B)
           (onRejected : value -> outcome B) (b : builder_t) : Async B :=
  fun w =>
    match run API_BASE net b w with
    | (Resolved r, w') => (onFulfilled r, w')
    | (Rejected e, w') => (onRejected e, w')
    end.

Definition catch_ (onRejected : value -> outcome result) (b : builder_t)
  : Async result :=
  fun w =>
    match run API_BASE net b w with
    | (Resolved r, w') => (Resolved r, w')
    | (Rejected e, w') => (onRejected e, w')
    end.

Definition finally_ (onFinally : outcome unit) (b : builder_t) : Async result :=
  fun w =>
    match run API_BASE net b w with
    | (o, w') =>
        match onFinally with
        | Resolved _ => (o, w')
        | Rejected e => (Rejected e, w')
        end
    end.

(** [await builder]: the engine calls [then] with its own resolving
    functions. *)
Definition await (b : builder_t) : Async result := then_ Resolved Rejected b.

End Terminal.
End builder.

Section Chains.
Import Js Http Page.

(** One chained call that returns the builder. *)
Inductive call : Type :=
| Select (columns : option string)
| Order (column : string) (opts : option order_opts)
| Range (from to : Z)
| Limit (n : Z)
| Eq (column : string) (v : value)
| Insert (payload : value)
| Update (payload : value).

Definition apply_call (b : builder_t) (c : call) : builder_t :=
  match c with
  | Select cols => builder.select cols b
  | Order column opts => builder.order column opts b
  | Range from to => builder.range from to b
  | Limit n => builder.limit n b
  | Eq column v => builder.eq column v b
  | Insert p => builder.insert p b
  | Update p => builder.update p b
  end.

(** [from(table).c1(...).c2(...)...] *)
Definition chain (table : string) (calls : list call) : builder_t :=
  fold_left apply_call calls (makeQueryBuilder table).

Definition is_range (c : call) : bool :=
  match c with
  | Range _ _ => true
  | _ => false
  end.

Definition is_limit (c : call) : bool :=
  match c with
  | Limit _ => true
  | _ => false
  end.

Definition no_range (calls : list call) : bool :=
  forallb (fun c => negb (is_range c)) calls.

Definition no_limit (calls : list call) : bool :=
  forallb (fun c => negb (is_limit c)) calls.

(** The pagination parameters a request carries: the values of its
    [from] and [to] parameters, in order of appearance. *)
Definition bounds (b : builder_t) : list string * list string :=
  (getAll "from" (buildParams (st b)), getAll "to" (buildParams (st b))).

End Chains.

(** *** The auth facade *)

Record credentials : Type := { email : string; password : string }.

Module auth.
Import Js Http Page.
Local Open Scope async_scope.

Section Facade.
Variable API_BASE : string.
Variable net : transport.

(** [data?.user ? { user: data.user } : null], the session read off the
    body of the session endpoint (in [getSession] and in the poll). *)
Definition session_of (d : value) : value :=
  if truthy (get_prop_opt d "user") then VObj [("user", get_prop d "user")]
  else VNull.

Definition post (b : option body) : api_opts :=
  {| opt_method := Some "POST"; opt_body := b; opt_headers := None |}.

Definition credentials_body (c : credentials) : option body :=
  json_body (VObj [("email", VStr (email c)); ("password", VStr (password c))]).

Definition getUser : Async result :=
  r <- api API_BASE net "/auth/session" no_opts ;;
  ret {| data := VObj [("user", coalesce (get_prop_opt (data r) "user") VNull)];
         error := error r |}.

Definition getSession : Async result :=
  r <- api API_BASE net "/auth/session" no_opts ;;
  let session := session_of (data r) in
  set_currentSession session ;;;
  ret {| data := VObj [("session", session)]; error := error r |}.

Definition signInWithPassword (c : credentials) : Async result :=
  res <- api API_BASE net "/auth/signin" (post (credentials_body c)) ;;
  (if negb (truthy (error res)) then
     u <- settle (member (data res) "user") ;;
     set_currentSession (VObj [("user", u)])
   else ret tt) ;;;
  if truthy (error res) then ret {| data := VNull; error := error res |}
  else
    u <- settle (member (data res) "user") ;;
    ret {| data := VObj [("user", u)]; error := VNull |}.

Definition signUp (c : credentials) : Async result :=
  res <- api API_BASE net "/auth/signup" (post (credentials_body c)) ;;
  if truthy (error res) then ret {| data := VNull; error := error res |}
  else
    u <- settle (member (data res) "user") ;;
    ret {| data := VObj [("user", u)]; error := VNull |}.

(** [signOut] resolves to an object with the one key [error]. *)
Definition signOut : Async value :=
  res <- api API_BASE net "/auth/signout" (post None) ;;
  set_currentSession VNull ;;;
  if truthy (error res) then ret (VObj [("error", error res)])
  else ret (VObj [("error", VNull)]).

Definition updateUser (payload : value) : Async result :=
  res <- api API_BASE net "/auth/update_user" (post (json_body payload)) ;;
  if truthy (error res) then ret {| data := VNull; error := error res |}
  else ret {| data := data res; error := VNull |}.

(** **** onAuthStateChange: the subscription and its timer *)

Fixpoint set_nth {A} (i : nat) (x : A) (l : list A) : list A :=
  match l, i with
  | [], _ => []
  | _ :: rest, O => x :: rest
  | y :: rest, S j => y :: set_nth j x rest
  end.

Fixpoint remove_nth {A} (i : nat) (l : list A) : list A :=
  match l, i with
  | [], _ => []
  | _ :: rest, O => rest
  | y :: rest, S j => y :: remove_nth j rest
  end.

Definition option_string_eqb (a b : option string) : bool :=
  match a, b with
  | Some x, Some y => x =? y
  | None, None => true
  | _, _ => false
  end.

(** The synchronous body of [onAuthStateChange(callback)]: it reads the
    cached session into [last] and sets the interval.  The number it
    returns names the subscription, its callback and its timer. *)
Definition onAuthStateChange (w : world) : nat * world :=
  let last := JSON_stringify (or_else (__currentSession w) VNull) in
  (length (subscriptions w),
   {| sent := sent w; __currentSession := __currentSession w;
      subscriptions := (subscriptions w ++ [{| last := last; active := true |}])%list;
      inflight := inflight w; notified := notified w |}).

(** [unsubscribe()] is [clearInterval(timer)]. *)
Definition unsubscribe (sub : nat) (w : world) : world :=
  match nth_error (subscriptions w) sub with
  | Some s =>
      {| sent := sent w; __currentSession := __currentSession w;
         subscriptions :=
           set_nth sub {| last := last s; active := false |} (subscriptions w);
         inflight := inflight w; notified := notified w |}
  | None => w
  end.

(** The interval fires for a subscription whose timer is set: the
    callback runs up to its [await], with the request sent. *)
Definition poll_begin (sub : nat) (w : world) : option world :=
  match nth_error (subscriptions w) sub with
  | Some s =>
      if active s then
        let req := api_request API_BASE "/auth/session" no_opts in
        Some {| sent := (sent w ++ [req])%list;
                __currentSession := __currentSession w;
                subscriptions := subscriptions w;
                inflight := (inflight w ++ [(sub, net (sent w) req)])%list;
                notified := notified w |}
      else None
  | None => None
  end.

(** The rest of the interval callback, once its [api] call settles.  A
    rejection ends the callback there. *)
Definition poll_resume (sub : nat) (o : fetch_outcome) (w : world) : world :=
  match api_settle o, nth_error (subscriptions w) sub with
  | Resolved r, Some s =>
      let next := session_of (data r) in
      let nextStr := JSON_stringify next in
      if negb (option_string_eqb nextStr (last s)) then
        {| sent := sent w;
           __currentSession := next;
           subscriptions :=
             set_nth sub {| last := nextStr; active := active s |} (subscriptions w);
           inflight := inflight w;
           notified :=
             (notified w ++
              [{| n_callback := sub;
                  n_event := if truthy next then "SIGNED_IN" else "SIGNED_OUT";
                  n_session := next |}])%list |}
      else w
  | _, _ => w
  end.

(** The [i]-th poll in flight settles. *)
Definition poll_settle (i : nat) (w : world) : option world :=
  match nth_error (inflight w) i with
  | Some (sub, o) =>
      Some (poll_resume sub o
              {| sent := sent w; __currentSession := __currentSession w;
                 subscriptions := subscriptions w;
                 inflight := remove_nth i (inflight w);
                 notified := notified w |})
  | None => None
  end.

(** **** The page as a transition system *)

Inductive event : Type :=
| EvSubscribe                      (* onAuthStateChange(callback) *)
| EvTick (sub : nat)               (* the interval of [sub] fires *)
| EvSettle (i : nat)               (* the i-th poll in flight settles *)
| EvUnsubscribe (sub : nat)
| EvGetUser
| EvGetSession
| EvSignIn (c : credentials)
| EvSignUp (c : credentials)
| EvSignOut
| EvUpdateUser (payload : value)
| EvRun (b : builder_t).           (* a terminal call runs a chain *)

(** One event; [None] when the event cannot happen in [w] (a cleared
    timer does not fire, there is no such poll in flight). *)
Definition step (w : world) (e : event) : option world :=
  match e with
  | EvSubscribe => Some (snd (onAuthStateChange w))
  | EvTick sub => poll_begin sub w
  | EvSettle i => poll_settle i w
  | EvUnsubscribe sub => Some (unsubscribe sub w)
  | EvGetUser => Some (snd (getUser w))
  | EvGetSession => Some (snd (getSession w))
  | EvSignIn c => Some (snd (signInWithPassword c w))
  | EvSignUp c => Some (snd (signUp c w))
  | EvSignOut => Some (snd (signOut w))
  | EvUpdateUser p => Some (snd (updateUser p w))
  | EvRun b => Some (snd (run API_BASE net b w))
  end.

Fixpoint exec (w : world) (es : list event) : option world :=
  match es with
  | [] => Some w
  | e :: rest =>
      match step w e with
      | Some w' => exec w' rest
      | None => None
      end
  end.

(** The invocations of the callback of [sub] recorded in [w]. *)
Definition calls_of (sub : nat) (w : world) : list notification :=
  filter (fun n => Nat.eqb (n_callback n) sub) (notified w).

(** The polls of [sub] that are in flight in [w]. *)
Definition pending_of (sub : nat) (w : world) : nat :=
  length (filter (fun p => Nat.eqb (fst p) sub) (inflight w)).

End Facade.
End auth.

(** *** Edge functions, RPC and storage *)

Module supabase.
Import Js Http Page.
Local Open Scope async_scope.

Section Client.
Variable API_BASE : string.
Variable net : transport.

(** [from(table)] *)
Definition from (table : string) : builder_t := makeQueryBuilder table.

(** [functions.invoke(name, { body })]; [body] is undefined when the
    second argument or its key is left out. *)
Definition functions_invoke (name : string) (body : value) : Async result :=
  res <- api API_BASE net ("/functions/" ++ name)
           (auth.post (json_body (or_else body (VObj [])))) ;;
  if truthy (error res) then ret {| data := VNull; error := error res |}
  else ret {| data := data res; error := VNull |}.

(** [rpc(fn, params)] *)
Definition rpc (fn : string) (params : value) : Async result :=
  res <- api API_BASE net ("/rpc/" ++ fn)
           (auth.post (json_body (or_else params (VObj [])))) ;;
  if truthy (error res) then ret {| data := VNull; error := error res |}
  else ret {| data := data res; error := VNull |}.

(** [storage.from(bucket).upload(path, file)]: the form holds the file,
    then the path. *)
Definition storage_upload (bucket path file : string) : Async result :=
  let fd := BodyForm [("file", file); ("path", path)] in
  api API_BASE net ("/storage/" ++ bucket ++ "/upload")
    {| opt_method := Some "POST"; opt_body := Some fd; opt_headers := None |}.

(** [storage.from(bucket).getPublicUrl(path)]: the [publicUrl] of the
    object it returns. *)
Definition storage_getPublicUrl (bucket path : string) : string :=
  API_BASE ++ "/storage/" ++ bucket ++ "/public/" ++ encodeURIComponent path.

End Client.
End supabase.

(* ================================================================== *)
(** ** src/lib/localFlaskClient.ts                                     *)
(* ================================================================== *)

Module localFlaskClient.
Import Js Http Page.
Local Open Scope async_scope.

(** [p.then(j => ...).catch(e => ...)] *)
Definition wrap (p : Async value) : Async result :=
  fun w =>
    match p w with
    | (Resolved j, w') =>
        (Resolved (if truthy (get_prop_opt j "error")
                   then {| data := VNull; error := j |}
                   else {| data := j; error := VNull |}), w')
    | (Rejected e, w') => (Resolved {| data := VNull; error := e |}, w')
    end.

(** A [URL] object as the platform holds it after parsing: [location]
    is the serialization of scheme, host, port and path, normalized by the
    parser; [query] and [fragment] are the parts that may follow it;
    [searchParams] is the list the query was parsed into. *)
Record URL : Type := {
  location : string;
  query : option string;
  fragment : option string;
  searchParams : URLSearchParams
}.

(** [url.toString()], the serialization of the URL. *)
Definition URL_toString (u : URL) : string :=
  location u
  ++ match query u with Some q => "?" ++ q | None => EmptyString end
  ++ match fragment u with Some f => "#" ++ f | None => EmptyString end.

(** [searchParams.set(name, value)] on the list. *)
Fixpoint params_set (name val : string) (p : URLSearchParams) : URLSearchParams :=
  match p with
  | [] => [(name, val)]
  | (n, v) :: rest =>
      if n =? name
      then (n, val) :: filter (fun nv => negb (fst nv =? name)) rest
      else (n, v) :: params_set name val rest
  end.

(** The update of a URL whose [searchParams] changed: its query becomes
    the serialization of the list, or null when that is empty. *)
Definition URL_update (u : URL) (p : URLSearchParams) : URL :=
  {| location := location u;
     query := if params_toString p =? EmptyString then None
              else Some (params_toString p);
     fragment := fragment u;
     searchParams := p |}.

(** [url.searchParams.set(name, value)] *)
Definition searchParams_set (name val : string) (u : URL) : URL :=
  URL_update u (params_set name val (searchParams u)).

Section Client.
(** The constructor [new URL(s)] of the platform: the parsed URL, or
    what it throws (a TypeError) for a string it cannot parse as an
    absolute URL, a relative base as /api among them. *)
Variable new_URL : string -> completion URL.
Variable baseUrl : string.
Variable net : transport.

Definition run (url : URL) (method : string) (body : value) : Async result :=
  let init :=
    {| req_url := URL_toString url;
       req_method := Some method;
       req_headers := [("Content-Type", "application/json")];
       req_body := match body with
                   | VUndef => None
                   | _ => json_body body
                   end;
       req_credentials := "include" |} in
  wrap (r <- fetch net init ;; settle (res_json r)).

(** [new URL(baseUrl + path)] *)
Definition endpoint (path : string) : completion URL :=
  new_URL (baseUrl ++ path).

(** [run(new URL(baseUrl + path), method, body)]: the URL is built
    first, and what the constructor throws leaves the call before [run]
    is entered. *)
Definition run_at (path method : string) (body : value)
  : completion (Async result) :=
  match endpoint path with
  | Returned url => Returned (run url method body)
  | Thrown e => Thrown e
  end.

Definition credentials_value (c : credentials) : value :=
  VObj [("email", VStr (email c)); ("password", VStr (password c))].

Definition signup (c : credentials) : completion (Async result) :=
  run_at "/auth/signup" "POST" (credentials_value c).

Definition signin (c : credentials) : completion (Async result) :=
  run_at "/auth/signin" "POST" (credentials_value c).

Definition signout : completion (Async result) :=
  run_at "/auth/signout" "POST" VUndef.

Definition session : completion (Async result) :=
  run_at "/auth/session" "GET" VUndef.

(** The chain of [from(table)]: its [url], [method] and [body]. *)
Record from_t : Type := { url : URL; method : string; body : value }.

Definition from (table : string) : completion from_t :=
  match endpoint ("/db/" ++ table) with
  | Returned u => Returned {| url := u; method := "GET"; body := VUndef |}
  | Thrown e => Thrown e
  end.

Definition exec (f : from_t) : Async result :=
  run (url f) (method f) (body f).

Definition eq (col : string) (v : value) (f : from_t) : from_t :=
  {| url := searchParams_set ("eq." ++ col) (js_String v) (url f);
     method := method f; body := body f |}.

(** [select().order(col, opts)] runs the chain. *)
Definition select_order (col : string) (opts : option order_opts) (f : from_t)
  : Async result :=
  let dir :=
    match opts with
    | Some {| ascending := Some false |} => "desc"
    | _ => "asc"
    end in
  exec {| url := searchParams_set "order" (col ++ "." ++ dir) (url f);
          method := method f; body := body f |}.

(** [select().single()] *)
Definition select_single (f : from_t) : Async result :=
  r <- exec f ;;
  ret {| data := if is_array (data r)
                 then coalesce (first_elem (data r)) VNull
                 else coalesce (data r) VNull;
         error := error r |}.

(** [select().then(...)], awaited. *)
Definition select_await (f : from_t) : Async result := exec f.

(** [insert(values).select()] *)
Definition insert_select (values : value) (f : from_t) : Async result :=
  exec {| url := url f; method := "POST";
          body := if is_array values then values else VArr [values] |}.

Definition update (values : value) (f : from_t) : Async result :=
  exec {| url := url f; method := "PATCH"; body := values |}.

Definition delete (f : from_t) : Async result :=
  exec {| url := url f; method := "DELETE"; body := body f |}.

(** The calls of [rpc]. *)
Definition resetMonthlyCredits : completion (Async result) :=
  run_at "/rpc/reset_monthly_credits" "POST" (VObj []).

Definition resetMonthlyOcrCredits : completion (Async result) :=
  run_at "/rpc/reset_monthly_ocr_credits" "POST" (VObj []).

Definition chatRouter (args : value) : completion (Async result) :=
  run_at "/functions/chat-router" "POST" args.

Definition contactSupport (payload : value) : completion (Async result) :=
  run_at "/functions/contact-support" "POST" payload.

(** The request of [storage.upload] for a built URL. *)
Definition upload_request (url : URL) (path file : string) : request :=
  {| req_url := URL_toString url;
     req_method := Some "POST";
     req_headers := [];
     req_body := Some (BodyForm [("path", path); ("file", file)]);
     req_credentials := "include" |}.

(** [storage.upload(bucket, path, file)], an [async] function: the one
    call that rejects. *)
Definition storage_upload (bucket path file : string) : Async value :=
  url <- attempt (endpoint ("/storage/" ++ bucket ++ "/upload")) ;;
  res <- fetch net (upload_request url path file) ;;
  j <- settle (res_json res) ;;
  if negb (res_ok res) || truthy (get_prop_opt j "error") then
    settle (Rejected
              (VError "Error"
                 (js_String (or_else (get_prop_opt j "error")
                                     (VStr (res_statusText res))))))
  else ret j.

(** src/lib/ensureSession.ts *)
Definition ensureSession : Async unit :=
  r <- await_call session ;;
  if truthy (get_prop_opt (data r) "user") then ret tt
  else
    let c := {| email := "dev@example.com"; password := "devdev123" |} in
    await_call (signup c) ;;;
    await_call (signin c) ;;;
    ret tt.

End Client.
End localFlaskClient.

(* ================================================================== *)
(** ** Auxiliary definitions for the statements                        *)
(* ================================================================== *)

Section Auxiliary.
Import Js Http Page.

(** The parameter a filter entry serializes to. *)
Definition filter_param (kv : string * value) : string * string :=
  ("eq." ++ fst kv, js_String (snd kv)).

(** The parameters of [buildQS] that precede the pagination pair. *)
Definition base_params (s : state.t) : URLSearchParams :=
  let ordering : URLSearchParams :=
    match state.order s with
    | Some (column, ascending) =>
        [("order", column ++ "." ++ (if ascending then "asc" else "desc"))]
    | None => []
    end in
  (map filter_param (state.filters s) ++ ordering)%list.

(** The pagination pair of [buildQS]. *)
Definition pagination_params (s : state.t) : URLSearchParams :=
  match state.range s with
  | Some (from, to) => [("from", num_to_string from); ("to", num_to_string to)]
  | None =>
      match state.limit s with
      | Some n => [("from", "0"); ("to", num_to_string (Z.max 0 (number_sub n 1)))]
      | None => []
      end
  end.

(** A response with status ok and a JSON body that parses to [d]. *)
Definition json_ok (d : value) : response :=
  {| res_ok := true; res_statusText := "OK";
     res_content_type := Some "application/json";
     res_json := Resolved d; res_text := Resolved EmptyString |}.

(** A network down at every request. *)
Definition offline (e : value) : transport := fun _ _ => FetchRejected e.

(** A network that answers the n-th request sent with the n-th body of a
    script, and the JSON body null once the script is exhausted. *)
Definition scripted (bodies : list value) : transport :=
  fun sent _ => FetchResponse (json_ok (nth (length sent) bodies VNull)).

(** A server that numbers the rows it creates: the answer to a POST is
    the row created, whose id counts the requests seen so far. *)
Definition numbering_server : transport :=
  fun sent _ =>
    FetchResponse (json_ok (VArr [VObj [("id", VNum (Z.of_nat (length sent)))]])).

(** The content type announces JSON, as [api] tests it. *)
Definition is_json (res : response) : bool :=
  match res_content_type res with
  | Some ct => includes "application/json" ct
  | None => false
  end.

(** The bodies of the session endpoint for a signed-in user [u1], and the
    session the facade makes of them. *)
Definition u1_body : value := VObj [("user", VObj [("id", VStr "u1")])].

Definition u1_session : value := VObj [("user", VObj [("id", VStr "u1")])].

Definition signed_in (sub : nat) (session : value) : notification :=
  {| n_callback := sub; n_event := "SIGNED_IN"; n_session := session |}.

Definition signed_out (sub : nat) : notification :=
  {| n_callback := sub; n_event := "SIGNED_OUT"; n_session := VNull |}.

(** [k] rounds of: the interval of subscription [sub] fires, then its
    poll settles, the poll being the one after [n] older polls in flight. *)
Definition ticks (sub n k : nat) : list auth.event :=
  concat (repeat [auth.EvTick sub; auth.EvSettle n] k).

(** The request of a poll. *)
Definition poll_request (API_BASE : string) : request :=
  api_request API_BASE "/auth/session" no_opts.

(** The bodies of the four answers of the session endpoint. *)
Definition four_answers : list value := [VNull; u1_body; u1_body; VNull].

(** The record of callback invocations after a subscription made in [w]
    and [k] polls of it. *)
Definition told_after (API_BASE : string) (net : transport) (w : world) (k : nat)
  : option (list notification) :=
  option_map notified
    (auth.exec API_BASE net w
       (auth.EvSubscribe
          :: ticks (length (subscriptions w)) (length (inflight w)) k)).

(** What a subscriber on a freshly loaded page has been told after [k]
    polls answered by the script [bodies]. *)
Definition notified_after (API_BASE : string) (bodies : list value) (k : nat)
  : option (list notification) :=
  told_after API_BASE (scripted bodies) fresh k.

(** The body of the session endpoint for nobody signed in. *)
Definition nobody_body : value := VObj [("user", VNull)].

(** The rejection of [fetch] when the network is down. *)
Definition failed_to_fetch : value := VError "TypeError" "Failed to fetch".

Definition dev_credentials : credentials :=
  {| email := "dev@example.com"; password := "devdev123" |}.

(** [from(chats).insert({ title }).select()] *)
Definition insert_chain : builder_t :=
  chain "chats" [Insert (VObj [("title", VStr "a")]); Select None].

(** [from(chats).select().limit(50)] *)
Definition read_chain : builder_t := chain "chats" [Select None; Limit 50].

(** [w'] has the subscriptions, the polls in flight and the record of
    callback invocations of [w]. *)
Definition same_timers (w w' : world) : Prop :=
  subscriptions w' = subscriptions w /\
  inflight w' = inflight w /\
  notified w' = notified w.

(** A computation that touches neither timers nor callbacks. *)
Definition quiet {A} (m : Async A) : Prop :=
  forall w, same_timers w (snd (m w)).

(** The timer of [sub] exists and has been cleared. *)
Definition cleared (sub : nat) (w : world) : Prop :=
  exists s, nth_error (subscriptions w) sub = Some s /\ active s = false.

(** From [w] to [w'] the callback of [sub] was invoked only by polls of
    [sub] that were in flight in [w]: its record grew by [extra]
    invocations, and as many polls of [sub] or more left the flight. *)
Definition drained (sub : nat) (w w' : world) : Prop :=
  exists extra : list notification,
    auth.calls_of sub w' = (auth.calls_of sub w ++ extra)%list /\
    (length extra + auth.pending_of sub w' <= auth.pending_of sub w)%nat.

(** The kinds of chained calls. *)
Definition is_select (c : call) : bool :=
  match c with
  | Select _ => true
  | _ => false
  end.

Definition is_order (c : call) : bool :=
  match c with
  | Order _ _ => true
  | _ => false
  end.

Definition is_eq_on (column : string) (c : call) : bool :=
  match c with
  | Eq column' _ => column' =? column
  | _ => false
  end.

Definition is_write (c : call) : bool :=
  match c with
  | Insert _ | Update _ => true
  | _ => false
  end.

(** The direction token [order] serializes for its second argument. *)
Definition direction (opts : option order_opts) : string :=
  match opts with
  | Some {| ascending := Some false |} => "desc"
  | _ => "asc"
  end.

(** [w'] is [w] after the one request [r], nothing else changed. *)
Definition sent_one (r : request) (w w' : world) : Prop :=
  w' = log_request r w.

(** The answer of a server that refuses the credentials. *)
Definition refusal : response :=
  {| res_ok := false; res_statusText := "Unauthorized";
     res_content_type := Some "application/json";
     res_json := Resolved (VObj [("error", VStr "invalid credentials")]);
     res_text := Resolved EmptyString |}.

(** A network that gives the same answer to every request. *)
Definition always (res : response) : transport := fun _ _ => FetchResponse res.

(** A page with the user u1 signed in. *)
Definition signed_in_page : world :=
  {| sent := []; __currentSession := u1_session; subscriptions := [];
     inflight := []; notified := [] |}.

(** An answer that is not ok and says nothing: empty text body, empty
    status text (as over HTTP/2). *)
Definition silent_failure : response :=
  {| res_ok := false; res_statusText := EmptyString;
     res_content_type := None;
     res_json := Rejected (VError "SyntaxError" "Unexpected end of JSON input");
     res_text := Resolved EmptyString |}.

(** The two forms of a session: null, or an object with the one key
    [user]. *)
Definition session_shape (v : value) : Prop :=
  v = VNull \/ exists u, v = VObj [("user", u)].

(** A computation that keeps the cached session in one of its forms. *)
Definition shapely {A} (m : Async A) : Prop :=
  forall w, session_shape (__currentSession w) ->
            session_shape (__currentSession (snd (m w))).

(** The event tag of a notification fits its session. *)
Definition well_tagged (n : notification) : Prop :=
  (n_event n = "SIGNED_IN" /\
   exists u, n_session n = VObj [("user", u)] /\ truthy u = true) \/
  (n_event n = "SIGNED_OUT" /\ n_session n = VNull).

(** No two neighbours of a list are equal. *)
Fixpoint distinct_adjacent {A} (l : list A) : Prop :=
  match l with
  | [] => True
  | a :: rest =>
      match rest with
      | [] => True
      | b :: _ => a <> b /\ distinct_adjacent rest
      end
  end.

(** The sessions the callback of [sub] was given, as [JSON.stringify]
    writes them, oldest first. *)
Definition session_strings (sub : nat) (w : world) : list (option string) :=
  map (fun n => JSON_stringify (n_session n)) (auth.calls_of sub w).

(** The page is coherent: every recorded invocation belongs to a
    subscription that exists; for every subscription, the sessions its
    callback was given differ from one invocation to the next, and its
    variable [last] holds the latest of them. *)
Definition coherent (w : world) : Prop :=
  (forall n, In n (notified w) -> (n_callback n < length (subscriptions w))%nat) /\
  (forall sub s, nth_error (subscriptions w) sub = Some s ->
     distinct_adjacent (session_strings sub w) /\
     (forall l y, session_strings sub w = (l ++ [y])%list -> y = last s)).

(** A run on one page: a subscription, a sign-in, one poll of the
    subscriber, a sign-out. *)
Definition busy_run : list auth.event :=
  [auth.EvSubscribe; auth.EvSignIn dev_credentials; auth.EvTick 0;
   auth.EvSettle 0; auth.EvSignOut].

(** [w] without its [i]-th poll in flight. *)
Definition without_poll (i : nat) (w : world) : world :=
  {| sent := sent w; __currentSession := __currentSession w;
     subscriptions := subscriptions w;
     inflight := auth.remove_nth i (inflight w);
     notified := notified w |}.

(** The request [run] of localFlaskClient hands to [fetch]. *)
Definition flask_request (url : localFlaskClient.URL) (method : string)
  (body : value) : request :=
  {| req_url := localFlaskClient.URL_toString url;
     req_method := Some method;
     req_headers := [("Content-Type", "application/json")];
     req_body := match body with
                 | VUndef => None
                 | _ => json_body body
                 end;
     req_credentials := "include" |}.

(** What [run] of localFlaskClient makes of the outcome of [fetch]. *)
Definition flask_result (o : fetch_outcome) : result :=
  match o with
  | FetchRejected e => {| data := VNull; error := e |}
  | FetchResponse res =>
      match res_json res with
      | Resolved j =>
          if truthy (get_prop_opt j "error")
          then {| data := VNull; error := j |}
          else {| data := j; error := VNull |}
      | Rejected e => {| data := VNull; error := e |}
      end
  end.

(** The three requests of [ensureSession], for the URLs built. *)
Definition session_request (url : localFlaskClient.URL) : request :=
  flask_request url "GET" VUndef.

Definition signup_request (url : localFlaskClient.URL) : request :=
  flask_request url "POST" (localFlaskClient.credentials_value dev_credentials).

Definition signin_request (url : localFlaskClient.URL) : request :=
  flask_request url "POST" (localFlaskClient.credentials_value dev_credentials).

(** Every character of a string passes a test. *)
Fixpoint string_forall (f : ascii -> bool) (s : string) : bool :=
  match s with
  | EmptyString => true
  | String c rest => f c && string_forall f rest
  end.

(** The characters a URL path keeps as they are, dots left out: letters,
    digits, the slash, the hyphen and the underscore. *)
Definition plain_path_char (c : ascii) : bool :=
  let n := N_of_ascii c in
  ((48 <=? n) && (n <=? 57) || (65 <=? n) && (n <=? 90) ||
   (97 <=? n) && (n <=? 122) || (n =? 47) || (n =? 45) || (n =? 95))%N.

(** The constructor of URLs cut down to the examples below: a string
    that starts with http://localhost:5000/ and goes on with plain path
    characters is a URL in normal form, with no query and no fragment,
    and is returned as it is written; every other string is refused with
    a TypeError, as the platform refuses /api and any other string
    without a scheme. *)
Definition localhost_URL (s : string) : completion localFlaskClient.URL :=
  if String.prefix "http://localhost:5000/" s
     && string_forall plain_path_char
          (substring 22 (String.length s - 22) s)
  then Returned {| localFlaskClient.location := s;
                   localFlaskClient.query := None;
                   localFlaskClient.fragment := None;
                   localFlaskClient.searchParams := [] |}
  else Thrown (VError "TypeError" "Invalid URL").

(** The URL [localhost_URL] returns for a string it accepts. *)
Definition localhost (s : string) : localFlaskClient.URL :=
  {| localFlaskClient.location := s;
     localFlaskClient.query := None;
     localFlaskClient.fragment := None;
     localFlaskClient.searchParams := [] |}.

(** The characters [encodeURIComponent] writes: the unreserved marks and
    the percent sign. *)
Definition uri_safe (c : ascii) : bool := uri_unreserved c || Ascii.eqb c "%".

(** The field of the state a chained call writes; [select] writes none,
    [insert] and [update] write method and payload together. *)
Inductive field : Type :=
| FFilters | FOrder | FRange | FLimit | FWrite.

Definition field_of (c : call) : option field :=
  match c with
  | Select _ => None
  | Order _ _ => Some FOrder
  | Range _ _ => Some FRange
  | Limit _ => Some FLimit
  | Eq _ _ => Some FFilters
  | Insert _ | Update _ => Some FWrite
  end.

Definition field_eqb (f g : field) : bool :=
  match f, g with
  | FFilters, FFilters | FOrder, FOrder | FRange, FRange
  | FLimit, FLimit | FWrite, FWrite => true
  | _, _ => false
  end.

(** Two calls write different fields. *)
Definition independent (c1 c2 : call) : bool :=
  match field_of c1, field_of c2 with
  | Some f, Some g => negb (field_eqb f g)
  | _, _ => true
  end.

Definition is_form (b : option body) : bool :=
  match b with
  | Some (BodyForm _) => true
  | _ => false
  end.

(** A value that, once it is the prototype, cuts the chain to the
    accessor of [Object.prototype]: [null], or an object with an own
    property [__proto__]. *)
Definition hides_proto_accessor (v : value) : bool :=
  match v with
  | VNull => true
  | VObj props =>
      match lookup "__proto__" props with Some _ => true | None => false end
  | _ => false
  end.

(** The call [eq("__proto__", v)] with such a value. *)
Definition rewires_prototype (c : call) : bool :=
  match c with
  | Eq column v => (column =? "__proto__") && hides_proto_accessor v
  | _ => false
  end.

End Auxiliary.

(* ================================================================== *)
(** * Properties of the query builder                                  *)
(* ================================================================== *)

Section SerializationFacts.
Import Js Http Page.

Lemma fold_filters (l : list (string * value)) (acc : URLSearchParams) :
  fold_left (fun p kv => params_append ("eq." ++ fst kv) (js_String (snd kv)) p) l acc
  = (acc ++ map filter_param l)%list.
Proof.
  revert acc; induction l as [|kv l IH]; intros acc; simpl.
  - now rewrite app_nil_r.
  - rewrite IH. unfold params_append. now rewrite <- app_assoc.
Qed.

Lemma buildParams_split (s : state.t) :
  buildParams s = (base_params s ++ pagination_params s)%list.
Proof.
  unfold buildParams, base_params, pagination_params.
  rewrite fold_filters. simpl.
  destruct (state.order s) as [[column ascending]|];
    destruct (state.range s) as [[from to]|];
    try destruct (state.limit s);
    unfold params_append; rewrite <- ?app_assoc; simpl; rewrite ?app_nil_r;
    reflexivity.
Qed.

Lemma getAll_app (k : string) (p q : URLSearchParams) :
  getAll k (p ++ q)%list = (getAll k p ++ getAll k q)%list.
Proof. unfold getAll. now rewrite filter_app, map_app. Qed.

Lemma getAll_filters_from (l : list (string * value)) :
  getAll "from" (map filter_param l) = [].
Proof. induction l as [|kv l IH]; simpl; auto. Qed.

Lemma getAll_filters_to (l : list (string * value)) :
  getAll "to" (map filter_param l) = [].
Proof. induction l as [|kv l IH]; simpl; auto. Qed.

Lemma getAll_base_from (s : state.t) : getAll "from" (base_params s) = [].
Proof.
  unfold base_params. rewrite getAll_app, getAll_filters_from.
  destruct (state.order s) as [[c a]|]; reflexivity.
Qed.

Lemma getAll_base_to (s : state.t) : getAll "to" (base_params s) = [].
Proof.
  unfold base_params. rewrite getAll_app, getAll_filters_to.
  destruct (state.order s) as [[c a]|]; reflexivity.
Qed.

Lemma bounds_pagination (b : builder_t) :
  bounds b = (getAll "from" (pagination_params (st b)),
              getAll "to" (pagination_params (st b))).
Proof.
  unfold bounds. rewrite buildParams_split, !getAll_app.
  now rewrite getAll_base_from, getAll_base_to.
Qed.

Lemma bounds_of_range (b : builder_t) (from to : Z) :
  state.range (st b) = Some (from, to) ->
  bounds b = ([num_to_string from], [num_to_string to]).
Proof.
  intros H. rewrite bounds_pagination. unfold pagination_params.
  now rewrite H.
Qed.

Lemma bounds_of_limit (b : builder_t) (n : Z) :
  state.range (st b) = None ->
  state.limit (st b) = Some n ->
  bounds b = (["0"], [num_to_string (Z.max 0 (number_sub n 1))]).
Proof.
  intros Hr Hl. rewrite bounds_pagination. unfold pagination_params.
  now rewrite Hr, Hl.
Qed.

End SerializationFacts.

Section QueryStringFacts.
Import Js Http Page.

Lemma string_app_assoc (a b c : string) : (a ++ b) ++ c = a ++ (b ++ c).
Proof. induction a as [|x a IH]; simpl; [reflexivity | now rewrite IH]. Qed.

Lemma string_app_nonempty (a : string) (c : ascii) (r : string) :
  (a ++ String c r =? EmptyString) = false.
Proof. destruct a; reflexivity. Qed.

Lemma form_encode_uint (d : Decimal.uint) :
  form_encode (NilEmpty.string_of_uint d) = NilEmpty.string_of_uint d.
Proof. induction d; simpl; try rewrite IHd; reflexivity. Qed.

Lemma form_encode_decimal (z : Z) : form_encode (decimal z) = decimal z.
Proof.
  unfold decimal, NilZero.string_of_int, NilZero.string_of_uint.
  destruct (Z.to_int z) as [d|d]; destruct d;
    try reflexivity;
    try (rewrite form_encode_uint; reflexivity);
    simpl form_encode; unfold form_encode_char; simpl;
    rewrite form_encode_uint; reflexivity.
Qed.

(** A safe integer prints as its exact decimal. *)
Lemma num_to_string_safe (n : Z) :
  safe_integer n = true -> num_to_string n = decimal n.
Proof. unfold num_to_string. now intros ->. Qed.

(** Subtracting one from a safe integer is exact. *)
Lemma number_sub_one_safe (n : Z) :
  safe_integer n = true -> number_sub n 1 = (n - 1)%Z.
Proof.
  unfold safe_integer, number_sub, round_to_double, two53. intros H.
  apply Z.ltb_lt in H.
  assert (E : (Z.abs (n - 1) <=? 9007199254740992)%Z = true)
    by (apply Z.leb_le; lia).
  now rewrite E.
Qed.

Lemma safe_clamped_pred (n : Z) :
  safe_integer n = true -> safe_integer (Z.max 0 (n - 1)) = true.
Proof.
  unfold safe_integer, two53. intros H. apply Z.ltb_lt in H.
  apply Z.ltb_lt. lia.
Qed.

Lemma join_with_snoc2 (sep x y : string) (l : list string) :
  join_with sep (l ++ [x; y])%list =
  match l with
  | [] => EmptyString
  | _ :: _ => join_with sep l ++ sep
  end ++ x ++ sep ++ y.
Proof.
  induction l as [|a l IH]; [reflexivity|].
  change ((a :: l) ++ [x; y])%list with (a :: (l ++ [x; y]))%list.
  destruct l as [|a' l].
  - simpl. now rewrite !string_app_assoc.
  - change (join_with sep (a :: (a' :: l) ++ [x; y])%list)
      with (a ++ sep ++ join_with sep ((a' :: l) ++ [x; y])%list).
    rewrite IH.
    change (join_with sep (a :: a' :: l)) with (a ++ sep ++ join_with sep (a' :: l)).
    now rewrite !string_app_assoc.
Qed.

(** The query string of a state with a pagination pair ends with it. *)
Lemma buildQS_pagination (s : state.t) (x y : string) :
  pagination_params s = [("from", x); ("to", y)] ->
  exists prefix : string,
    buildQS s = prefix ++ "from=" ++ form_encode x ++ "&to=" ++ form_encode y.
Proof.
  intros Hp.
  set (T := "from=" ++ form_encode x ++ "&to=" ++ form_encode y).
  unfold buildQS, params_toString.
  rewrite buildParams_split, Hp, map_app. simpl map.
  rewrite join_with_snoc2.
  set (pre := match map _ (base_params s) with [] => EmptyString | _ => _ end).
  change (exists prefix : string,
             (if pre ++ T =? EmptyString then EmptyString else "?" ++ pre ++ T)
             = prefix ++ T).
  assert (Hne : (pre ++ T =? EmptyString) = false)
    by apply (string_app_nonempty pre "f").
  rewrite Hne. exists ("?" ++ pre). now rewrite string_app_assoc.
Qed.

End QueryStringFacts.

Section ChainFacts.
Import Js Http Page.

Lemma apply_call_range (b : builder_t) (c : call) :
  is_range c = false -> state.range (st (apply_call b c)) = state.range (st b).
Proof. destruct c; simpl; intros H; try reflexivity; discriminate. Qed.

Lemma apply_call_limit (b : builder_t) (c : call) :
  is_limit c = false -> state.limit (st (apply_call b c)) = state.limit (st b).
Proof. destruct c; simpl; intros H; try reflexivity; discriminate. Qed.

Lemma calls_keep_range (calls : list call) (b : builder_t) :
  no_range calls = true ->
  state.range (st (fold_left apply_call calls b)) = state.range (st b).
Proof.
  revert b; induction calls as [|c calls IH]; intros b H; simpl in *.
  - reflexivity.
  - apply andb_true_iff in H as [Hc Hrest].
    rewrite IH by assumption.
    apply apply_call_range. now destruct (is_range c).
Qed.

Lemma calls_keep_limit (calls : list call) (b : builder_t) :
  no_limit calls = true ->
  state.limit (st (fold_left apply_call calls b)) = state.limit (st b).
Proof.
  revert b; induction calls as [|c calls IH]; intros b H; simpl in *.
  - reflexivity.
  - apply andb_true_iff in H as [Hc Hrest].
    rewrite IH by assumption.
    apply apply_call_limit. now destruct (is_limit c).
Qed.

Lemma no_range_app (l1 l2 : list call) :
  no_range (l1 ++ l2) = no_range l1 && no_range l2.
Proof. apply forallb_app. Qed.

(** After [range(a, b)] and calls that are not [range], the state holds
    the range. *)
Lemma chain_range_last (table : string) (pre post : list call) (a b : Z) :
  no_range post = true ->
  state.range (st (chain table (pre ++ Range a b :: post))) = Some (a, b).
Proof.
  intros H. unfold chain. rewrite fold_left_app. simpl fold_left.
  now rewrite calls_keep_range.
Qed.

(** After [limit(n)] in a chain without [range], the state holds the
    limit and no range. *)
Lemma chain_limit_last (table : string) (pre post : list call) (n : Z) :
  no_range pre = true -> no_range post = true -> no_limit post = true ->
  state.range (st (chain table (pre ++ Limit n :: post))) = None /\
  state.limit (st (chain table (pre ++ Limit n :: post))) = Some n.
Proof.
  intros Hpre Hpost Hlim. unfold chain. split.
  - rewrite calls_keep_range; [reflexivity|].
    rewrite no_range_app, Hpre. simpl. exact Hpost.
  - rewrite fold_left_app. simpl fold_left. now rewrite calls_keep_limit.
Qed.

End ChainFacts.

Section PaginationClaims.
Import Js Http Page.
Local Open Scope Z_scope.

(** C10.  A chain that calls [limit(n)] and never [range] emits the
    parameters from=0 and to=max(0, n-1), the subtraction being that of
    numbers: the upper bound is clamped at 0, so [limit(0)] asks for the
    one-row window from=0, to=0.  For a safe integer [n] the subtraction
    is exact and the bound is the decimal numeral of max(0, n-1).  The
    chain may hold any other calls around the limit. *)
Theorem limit_upper_bound_is_clamped
  (table : string) (pre post : list call) (n : Z) :
  is_number n = true ->
  no_range pre = true -> no_range post = true -> no_limit post = true ->
  bounds (chain table (pre ++ Limit n :: post))
    = (["0"], [num_to_string (Z.max 0 (number_sub n 1))]) /\
  (exists prefix : string,
     buildQS (st (chain table (pre ++ Limit n :: post)))
     = prefix ++ "from=0&to="
              ++ form_encode (num_to_string (Z.max 0 (number_sub n 1))))%string /\
  (safe_integer n = true ->
   bounds (chain table (pre ++ Limit n :: post))
     = (["0"], [decimal (Z.max 0 (n - 1))]) /\
   exists prefix : string,
     (buildQS (st (chain table (pre ++ Limit n :: post)))
      = prefix ++ "from=0&to=" ++ decimal (Z.max 0 (n - 1)))%string) /\
  (n = 0 -> bounds (chain table (pre ++ Limit n :: post)) = (["0"], ["0"])).
Proof.
  intros _ Hpre Hpost Hlim.
  destruct (chain_limit_last table pre post n Hpre Hpost Hlim) as [Hr Hl].
  assert (Hb : bounds (chain table (pre ++ Limit n :: post))
               = (["0"], [num_to_string (Z.max 0 (number_sub n 1))]))
    by (apply bounds_of_limit; assumption).
  assert (Hq : exists prefix : string,
             (buildQS (st (chain table (pre ++ Limit n :: post)))
              = prefix ++ "from=0&to="
                  ++ form_encode (num_to_string (Z.max 0 (number_sub n 1))))%string).
  { apply (buildQS_pagination _ "0"). unfold pagination_params. now rewrite Hr, Hl. }
  split; [exact Hb|]. split; [exact Hq|]. split.
  - intros Hsafe.
    assert (E : num_to_string (Z.max 0 (number_sub n 1)) = decimal (Z.max 0 (n - 1))).
    { rewrite number_sub_one_safe by exact Hsafe.
      apply num_to_string_safe. now apply safe_clamped_pred. }
    rewrite E in Hb, Hq. rewrite form_encode_decimal in Hq.
    split; [exact Hb | exact Hq].
  - intros ->. exact Hb.
Qed.

Lemma limit_upper_bound_is_clamped_witness :
  is_number 50 = true /\ safe_integer 50 = true /\
  no_range [Select None; Order "created_at" (Some {| ascending := Some false |})] = true /\
  no_range [] = true /\ no_limit [] = true /\
  bounds (chain "ocr_bill_extractions"
            ([Select None; Order "created_at" (Some {| ascending := Some false |})]
               ++ Limit 50 :: []))
    = (["0"], ["49"]).
Proof.
  split; [reflexivity|]. split; [reflexivity|].
  split; [reflexivity|]. split; [reflexivity|]. split; [reflexivity|].
  apply (limit_upper_bound_is_clamped "ocr_bill_extractions"
           [Select None; Order "created_at" (Some {| ascending := Some false |})]
           [] 50); reflexivity.
Defined.

(** Beyond the safe integers the subtraction rounds: [limit] of 2^53 + 2
    emits the upper bound 2^53. *)
Lemma limit_beyond_safe_integers_rounds :
  is_number 9007199254740994 = true /\
  bounds (chain "t" [Limit 9007199254740994]) = (["0"], ["9007199254740992"]).
Proof. split; vm_compute; reflexivity. Qed.

(** C4, as the code has it.  For a non-negative safe integer [n] (at
    most 2^53 - 1), a chain that calls [limit(n)] and never [range] emits
    from=0 and to=n-1 when n is at least 1, and from=0 and to=0 when n
    is 0. *)
Theorem limit_bounds_of_nonnegative
  (table : string) (pre post : list call) (n : Z) :
  0 <= n -> safe_integer n = true ->
  no_range pre = true -> no_range post = true -> no_limit post = true ->
  (1 <= n ->
   bounds (chain table (pre ++ Limit n :: post))
   = (["0"], [decimal (n - 1)])) /\
  (n = 0 ->
   bounds (chain table (pre ++ Limit n :: post)) = (["0"], [decimal 0])).
Proof.
  intros Hn Hsafe Hpre Hpost Hlim.
  destruct (chain_limit_last table pre post n Hpre Hpost Hlim) as [Hr Hl].
  assert (E : num_to_string (Z.max 0 (number_sub n 1)) = decimal (Z.max 0 (n - 1))).
  { rewrite number_sub_one_safe by exact Hsafe.
    apply num_to_string_safe. now apply safe_clamped_pred. }
  split; intros Hcase;
    rewrite (bounds_of_limit _ n Hr Hl), E; do 3 f_equal; lia.
Qed.

Lemma limit_bounds_of_nonnegative_witness :
  0 <= 50 /\ safe_integer 50 = true /\
  no_range [Select None] = true /\ no_range [] = true /\
  no_limit [] = true /\
  bounds (chain "ocr_bank_extractions" ([Select None] ++ Limit 50 :: []))
    = (["0"], ["49"]).
Proof.
  split; [lia|]. split; [reflexivity|]. split; [reflexivity|].
  split; [reflexivity|]. split; [reflexivity|].
  apply (limit_bounds_of_nonnegative "ocr_bank_extractions" [Select None] [] 50);
    try reflexivity; lia.
Defined.

(** C4 as stated fails at n = 0: [limit(0)] without [range] emits to=0,
    not to=-1. *)
Lemma limit_zero_upper_bound_is_not_minus_one :
  0 <= 0 /\ no_range [Limit 0] = true /\
  bounds (chain "t" [Limit 0]) = (["0"], ["0"]) /\
  bounds (chain "t" [Limit 0]) <> (["0"], [num_to_string (0 - 1)]).
Proof.
  split; [lia|]. split; [reflexivity|]. split; [reflexivity|].
  intros H. vm_compute in H. discriminate H.
Qed.

(** C5.  A chain that calls both [range(a, b)] and [limit(n)] emits
    from=a and to=b, whichever of the two comes first ([range(a, b)] being
    the last range call of the chain): the two parameters are [String(a)]
    and [String(b)], which for safe integers are their decimal numerals. *)
Theorem range_supersedes_limit
  (table : string) (pre mid post : list call) (a b n : Z) :
  is_number a = true -> is_number b = true ->
  no_range mid = true -> no_range post = true ->
  bounds (chain table (pre ++ Range a b :: mid ++ Limit n :: post))
    = ([num_to_string a], [num_to_string b]) /\
  bounds (chain table (pre ++ Limit n :: mid ++ Range a b :: post))
    = ([num_to_string a], [num_to_string b]) /\
  (exists prefix : string,
     buildQS (st (chain table (pre ++ Range a b :: mid ++ Limit n :: post)))
     = prefix ++ "from=" ++ form_encode (num_to_string a)
              ++ "&to=" ++ form_encode (num_to_string b))%string /\
  (exists prefix : string,
     buildQS (st (chain table (pre ++ Limit n :: mid ++ Range a b :: post)))
     = prefix ++ "from=" ++ form_encode (num_to_string a)
              ++ "&to=" ++ form_encode (num_to_string b))%string /\
  (safe_integer a = true -> safe_integer b = true ->
   num_to_string a = decimal a /\ num_to_string b = decimal b /\
   form_encode (num_to_string a) = decimal a /\
   form_encode (num_to_string b) = decimal b).
Proof.
  intros _ _ Hmid Hpost.
  assert (H1 : state.range (st (chain table (pre ++ Range a b :: mid ++ Limit n :: post)))
               = Some (a, b)).
  { apply chain_range_last. rewrite no_range_app, Hmid. exact Hpost. }
  assert (H2 : state.range (st (chain table (pre ++ Limit n :: mid ++ Range a b :: post)))
               = Some (a, b)).
  { replace (pre ++ Limit n :: mid ++ Range a b :: post)%list
      with ((pre ++ Limit n :: mid) ++ Range a b :: post)%list
      by (rewrite <- app_assoc; reflexivity).
    now apply chain_range_last. }
  repeat apply conj.
  - now apply bounds_of_range.
  - now apply bounds_of_range.
  - apply buildQS_pagination. unfold pagination_params. now rewrite H1.
  - apply buildQS_pagination. unfold pagination_params. now rewrite H2.
  - intros Ha Hb. rewrite !num_to_string_safe by assumption.
    rewrite !form_encode_decimal. repeat split.
Qed.

Lemma range_supersedes_limit_witness :
  is_number 10 = true /\ is_number 19 = true /\
  no_range [Eq "user_id" (VStr "u1")] = true /\ no_range [Select None] = true /\
  bounds (chain "chats" ([] ++ Range 10 19 :: [Eq "user_id" (VStr "u1")]
                            ++ Limit 5 :: [Select None]))
    = (["10"], ["19"]) /\
  bounds (chain "chats" ([] ++ Limit 5 :: [Eq "user_id" (VStr "u1")]
                            ++ Range 10 19 :: [Select None]))
    = (["10"], ["19"]).
Proof.
  split; [reflexivity|]. split; [reflexivity|].
  split; [reflexivity|]. split; [reflexivity|].
  destruct (range_supersedes_limit "chats" [] [Eq "user_id" (VStr "u1")]
              [Select None] 10 19 5 eq_refl eq_refl eq_refl eq_refl)
    as (H1 & H2 & _).
  split; [exact H1 | exact H2].
Defined.

(** Beyond the safe integers the bounds are the numerals [String] prints:
    2^64 goes out as 18446744073709552000, and 10^21 in exponent
    notation, its plus sign escaped in the query string. *)
Lemma range_beyond_safe_integers_prints_as_String :
  is_number 18446744073709551616 = true /\
  is_number 1000000000000000000000 = true /\
  bounds (chain "t" [Range 18446744073709551616 1000000000000000000000])
  = (["18446744073709552000"], ["1e+21"]) /\
  buildQS (st (chain "t" [Range 18446744073709551616 1000000000000000000000]))
  = "?from=18446744073709552000&to=1e%2B21"%string.
Proof. repeat apply conj; vm_compute; reflexivity. Qed.

End PaginationClaims.

(* ================================================================== *)
(** * Properties of execution                                          *)
(* ================================================================== *)

Section ExecutionFacts.
Import Js Http Page.
Variable API_BASE : string.
Variable net : transport.

(** [api] sends one request and settles to what [api_settle] makes of the
    answer. *)
Lemma api_spec (path : string) (opts : api_opts) (w : world) :
  api API_BASE net path opts w
  = (api_settle (net (sent w) (api_request API_BASE path opts)),
     log_request (api_request API_BASE path opts) w).
Proof.
  unfold api, bind, fetch, settle, api_settle.
  destruct (net (sent w) (api_request API_BASE path opts)); reflexivity.
Qed.

Lemma run_spec (b : builder_t) (w : world) :
  run API_BASE net b w
  = (api_settle (net (sent w) (run_request API_BASE b)),
     log_request (run_request API_BASE b) w).
Proof.
  unfold run, run_request.
  destruct (state.method (st b)); apply api_spec.
Qed.

Lemma await_spec (b : builder_t) (w : world) :
  builder.await API_BASE net b w = run API_BASE net b w.
Proof.
  unfold builder.await, builder.then_.
  destruct (run API_BASE net b w) as [[r|e] w']; reflexivity.
Qed.

(** An ok response with a JSON body resolves [api] with the body. *)
Lemma api_finish_ok (res : response) (d : value) :
  res_ok res = true -> is_json res = true -> res_json res = Resolved d ->
  api_finish res = Resolved {| data := d; error := VNull |}.
Proof.
  unfold is_json, api_finish. intros Hok Hjson Hd.
  now rewrite Hjson, Hd, Hok.
Qed.

End ExecutionFacts.

Section TerminalClaims.
Import Js Http Page.

(** C9.  [single()] and [maybeSingle()] settle alike, and leave the page
    alike, on every builder, transport and page. *)
Theorem single_and_maybeSingle_agree
  (API_BASE : string) (net : transport) (b : builder_t) (w : world) :
  builder.single API_BASE net b w = builder.maybeSingle API_BASE net b w.
Proof.
  unfold builder.single, builder.maybeSingle, bind.
  destruct (run API_BASE net b w) as [[res|e] w']; reflexivity.
Qed.

(** C8.  On an ok JSON response that is an array, [single()] resolves to
    data null for the empty array and to the first element otherwise,
    with error null.  The first element is a parsed JSON value, so it is
    not undefined.  The method of the chain plays no part: this holds of
    a READ as of any other chain. *)
Theorem single_takes_first_row
  (API_BASE : string) (net : transport) (b : builder_t) (w : world)
  (res : response) (rows : list value) :
  net (sent w) (run_request API_BASE b) = FetchResponse res ->
  res_ok res = true -> is_json res = true ->
  res_json res = Resolved (VArr rows) ->
  (rows = [] ->
   fst (builder.single API_BASE net b w)
   = Resolved {| data := VNull; error := VNull |}) /\
  (forall x rest, rows = x :: rest -> x <> VUndef ->
   fst (builder.single API_BASE net b w)
   = Resolved {| data := x; error := VNull |}).
Proof.
  intros Hnet Hok Hjson Hrows.
  unfold builder.single, bind. rewrite run_spec, Hnet. simpl api_settle.
  rewrite (api_finish_ok res (VArr rows) Hok Hjson Hrows). simpl.
  split.
  - intros ->. reflexivity.
  - intros x rest -> Hx. simpl. unfold coalesce.
    destruct x; try reflexivity. contradiction.
Qed.

Lemma single_takes_first_row_witness :
  fst (builder.single "/api" (scripted [VArr [VObj [("id", VStr "a")]]])
                      (chain "chats" [Select None]) fresh)
  = Resolved {| data := VObj [("id", VStr "a")]; error := VNull |}.
Proof.
  refine (proj2 (single_takes_first_row "/api"
                   (scripted [VArr [VObj [("id", VStr "a")]]])
                   (chain "chats" [Select None]) fresh
                   (json_ok (VArr [VObj [("id", VStr "a")]]))
                   [VObj [("id", VStr "a")]]
                   eq_refl eq_refl eq_refl eq_refl)
                (VObj [("id", VStr "a")]) [] eq_refl _).
  discriminate.
Defined.

(** C1, as the code has it.  A chain whose method is POST sends its
    request at every resolution: resolving the same chain twice sends the
    same POST request twice, and each resolution settles to the answer to
    its own request.  The two results are equal when the transport
    answers the second request as it answered the first. *)
Theorem create_resolved_twice_sends_twice
  (API_BASE : string) (net : transport) (b : builder_t) (w : world) :
  state.method (st b) = state.POST ->
  let req := run_request API_BASE b in
  let first := builder.await API_BASE net b w in
  let second := builder.await API_BASE net b (snd first) in
  req_method req = Some "POST" /\
  sent (snd second) = (sent w ++ [req; req])%list /\
  fst first = api_settle (net (sent w) req) /\
  fst second = api_settle (net (sent w ++ [req])%list req) /\
  (net (sent w ++ [req])%list req = net (sent w) req -> fst second = fst first).
Proof.
  intros Hm req first second. subst first second.
  rewrite !await_spec, !run_spec. fold req. simpl.
  repeat split.
  - unfold req, run_request. now rewrite Hm.
  - now rewrite <- app_assoc.
  - intros ->. reflexivity.
Qed.

Lemma create_resolved_twice_sends_twice_witness :
  state.method (st insert_chain) = state.POST /\
  length (sent (snd (builder.await "/api" numbering_server insert_chain
                       (snd (builder.await "/api" numbering_server insert_chain
                               fresh))))) = 2%nat.
Proof.
  split; [reflexivity|].
  destruct (create_resolved_twice_sends_twice "/api" numbering_server
              insert_chain fresh eq_refl)
    as (_ & Hsent & _).
  rewrite Hsent. reflexivity.
Defined.

(** C1 as stated fails: against a server that numbers the rows it
    creates, two resolutions of one insert chain send two requests and
    resolve to two different rows. *)
Lemma create_resolved_twice_is_not_memoized :
  state.method (st insert_chain) = state.POST /\
  length (sent (snd (builder.await "/api" numbering_server insert_chain
                       (snd (builder.await "/api" numbering_server insert_chain
                               fresh))))) = 2%nat /\
  fst (builder.await "/api" numbering_server insert_chain fresh)
  = Resolved {| data := VArr [VObj [("id", VNum 0)]]; error := VNull |} /\
  fst (builder.await "/api" numbering_server insert_chain
         (snd (builder.await "/api" numbering_server insert_chain fresh)))
  = Resolved {| data := VArr [VObj [("id", VNum 1)]]; error := VNull |} /\
  fst (builder.await "/api" numbering_server insert_chain fresh)
  <> fst (builder.await "/api" numbering_server insert_chain
            (snd (builder.await "/api" numbering_server insert_chain fresh))).
Proof.
  repeat apply conj; try reflexivity. discriminate.
Qed.

End TerminalClaims.

Section TransportFailure.
Import Js Http Page.

(** With the network down, [api] rejects with the reason of [fetch]. *)
Lemma api_rejects (API_BASE : string) (net : transport) (w : world) (e : value)
  (path : string) (opts : api_opts) :
  (forall r, net (sent w) r = FetchRejected e) ->
  api API_BASE net path opts w
  = (Rejected e, log_request (api_request API_BASE path opts) w).
Proof. intros H. now rewrite api_spec, H. Qed.

(** With the network down, [run] of localFlaskClient resolves. *)
Lemma flask_run_resolves (net : transport) (w : world) (e : value)
  (url : localFlaskClient.URL) (method : string) (body : value) :
  (forall r, net (sent w) r = FetchRejected e) ->
  fst (localFlaskClient.run net url method body w)
  = Resolved {| data := VNull; error := e |}.
Proof.
  intros H. unfold localFlaskClient.run, localFlaskClient.wrap, bind, fetch.
  now rewrite H.
Qed.

(** C2, as the code has it.  When the network is down ([fetch] rejects
    with [e] whatever the request):
    - in localFlaskClient.ts, [wrap] catches the rejection: [run], and
      with it the chain of [from] and every call whose URL the platform
      accepts (the auth calls among them), resolve to data null and
      error [e]; a call whose URL the platform refuses throws what
      [new URL] throws, before [run] and outside [wrap];
    - in client.ts nothing catches it: [api], the terminal calls of the
      query builder and the calls of the auth facade reject with [e].
    Independently of the network, [api] gives data null to every
    response that is not ok and whose body could be read. *)
Theorem transport_failure_is_caught_by_wrap_only
  (new_URL : string -> completion localFlaskClient.URL)
  (API_BASE baseUrl : string) (net : transport) (w : world) (e : value) :
  (forall r, net (sent w) r = FetchRejected e) ->
  let failed := Resolved {| data := VNull; error := e |} in
  ((forall url method body,
      fst (localFlaskClient.run net url method body w) = failed) /\
   (forall path method body url,
      new_URL (baseUrl ++ path) = Returned url ->
      exists p,
        localFlaskClient.run_at new_URL baseUrl net path method body = Returned p /\
        fst (p w) = failed) /\
   (forall c url,
      new_URL (baseUrl ++ "/auth/signup") = Returned url ->
      exists p,
        localFlaskClient.signup new_URL baseUrl net c = Returned p /\
        fst (p w) = failed) /\
   (forall c url,
      new_URL (baseUrl ++ "/auth/signin") = Returned url ->
      exists p,
        localFlaskClient.signin new_URL baseUrl net c = Returned p /\
        fst (p w) = failed) /\
   (forall url,
      new_URL (baseUrl ++ "/auth/signout") = Returned url ->
      exists p,
        localFlaskClient.signout new_URL baseUrl net = Returned p /\
        fst (p w) = failed) /\
   (forall url,
      new_URL (baseUrl ++ "/auth/session") = Returned url ->
      exists p,
        localFlaskClient.session new_URL baseUrl net = Returned p /\
        fst (p w) = failed) /\
   (forall f, fst (localFlaskClient.exec net f w) = failed) /\
   (forall f, fst (localFlaskClient.select_single net f w) = failed) /\
   (forall path method body t,
      new_URL (baseUrl ++ path) = Thrown t ->
      localFlaskClient.run_at new_URL baseUrl net path method body = Thrown t) /\
   (forall t,
      new_URL (baseUrl ++ "/auth/session") = Thrown t ->
      localFlaskClient.session new_URL baseUrl net = Thrown t)) /\
  ((forall path opts, fst (api API_BASE net path opts w) = Rejected e) /\
   (forall b, fst (run API_BASE net b w) = Rejected e) /\
   (forall b, fst (builder.single API_BASE net b w) = Rejected e) /\
   (forall b, fst (builder.maybeSingle API_BASE net b w) = Rejected e) /\
   (forall b, fst (builder.await API_BASE net b w) = Rejected e) /\
   (forall column v b,
      fst (builder.delete_eq API_BASE net column v (builder.delete b) w)
      = Rejected e) /\
   fst (auth.getUser API_BASE net w) = Rejected e /\
   fst (auth.getSession API_BASE net w) = Rejected e /\
   (forall c, fst (auth.signInWithPassword API_BASE net c w) = Rejected e) /\
   (forall c, fst (auth.signUp API_BASE net c w) = Rejected e) /\
   fst (auth.signOut API_BASE net w) = Rejected e /\
   (forall p, fst (auth.updateUser API_BASE net p w) = Rejected e)) /\
  (forall res d,
     res_ok res = false -> is_json res = true -> res_json res = Resolved d ->
     exists err, api_finish res = Resolved {| data := VNull; error := err |}).
Proof.
  intros Hdown failed.
  assert (Hrun : forall b, run API_BASE net b w
                           = (Rejected e, log_request (run_request API_BASE b) w)).
  { intros b. now rewrite run_spec, Hdown. }
  assert (Hat : forall path method body url,
             new_URL (baseUrl ++ path) = Returned url ->
             exists p,
               localFlaskClient.run_at new_URL baseUrl net path method body
               = Returned p /\ fst (p w) = failed).
  { intros path method body url Hurl.
    unfold localFlaskClient.run_at, localFlaskClient.endpoint. rewrite Hurl.
    eexists. split; [reflexivity|]. apply flask_run_resolves. exact Hdown. }
  split; [|split].
  - repeat apply conj.
    + intros. apply flask_run_resolves. exact Hdown.
    + exact Hat.
    + intros c url Hurl. exact (Hat _ _ _ url Hurl).
    + intros c url Hurl. exact (Hat _ _ _ url Hurl).
    + intros url Hurl. exact (Hat _ _ _ url Hurl).
    + intros url Hurl. exact (Hat _ _ _ url Hurl).
    + intros f. apply flask_run_resolves. exact Hdown.
    + intros f. unfold localFlaskClient.select_single, localFlaskClient.exec, bind.
      rewrite (surjective_pairing (localFlaskClient.run net _ _ _ w)).
      rewrite (flask_run_resolves net w e) by exact Hdown. reflexivity.
    + intros path method body t Hurl.
      unfold localFlaskClient.run_at, localFlaskClient.endpoint. now rewrite Hurl.
    + intros t Hurl.
      unfold localFlaskClient.session, localFlaskClient.run_at,
        localFlaskClient.endpoint. now rewrite Hurl.
  - repeat apply conj; intros;
      unfold builder.single, builder.maybeSingle, builder.delete_eq,
        auth.getUser, auth.getSession, auth.signInWithPassword, auth.signUp,
        auth.signOut, auth.updateUser, bind;
      rewrite ?await_spec, ?Hrun, ?(api_rejects _ _ _ e) by exact Hdown;
      reflexivity.
  - intros res d Hok Hjson Hd. unfold is_json in Hjson. unfold api_finish.
    rewrite Hjson, Hd, Hok. simpl. eexists. reflexivity.
Qed.

Lemma transport_failure_is_caught_by_wrap_only_witness :
  (forall r, offline failed_to_fetch (sent fresh) r = FetchRejected failed_to_fetch) /\
  localhost_URL "http://localhost:5000/auth/session"
  = Returned (localhost "http://localhost:5000/auth/session") /\
  (exists p,
     localFlaskClient.session localhost_URL "http://localhost:5000"
       (offline failed_to_fetch) = Returned p /\
     fst (p fresh) = Resolved {| data := VNull; error := failed_to_fetch |}) /\
  localFlaskClient.session localhost_URL "/api" (offline failed_to_fetch)
  = Thrown (VError "TypeError" "Invalid URL") /\
  fst (auth.getSession "/api" (offline failed_to_fetch) fresh)
  = Rejected failed_to_fetch.
Proof.
  split; [reflexivity|]. split; [reflexivity|].
  destruct (transport_failure_is_caught_by_wrap_only localhost_URL "/api"
              "http://localhost:5000"
              (offline failed_to_fetch) fresh failed_to_fetch (fun r => eq_refl))
    as ((_ & _ & _ & _ & _ & Hs & _) & (_ & _ & _ & _ & _ & _ & _ & Hg & _) & _).
  split; [exact (Hs _ eq_refl)|].
  split; [|exact Hg].
  destruct (transport_failure_is_caught_by_wrap_only localhost_URL "/api" "/api"
              (offline failed_to_fetch) fresh failed_to_fetch (fun r => eq_refl))
    as ((_ & _ & _ & _ & _ & _ & _ & _ & _ & Ht) & _).
  exact (Ht _ eq_refl).
Defined.

(** C2 as stated fails in client.ts: with the network down, awaiting a
    chain, [single()] and [getSession()] reject with the reason of [fetch]
    instead of resolving to a result. *)
Lemma transport_failure_rejects_in_client :
  fst (builder.await "/api" (offline failed_to_fetch) read_chain fresh)
  = Rejected failed_to_fetch /\
  fst (builder.single "/api" (offline failed_to_fetch) read_chain fresh)
  = Rejected failed_to_fetch /\
  fst (auth.getSession "/api" (offline failed_to_fetch) fresh)
  = Rejected failed_to_fetch /\
  fst (builder.await "/api" (offline failed_to_fetch) read_chain fresh)
  <> Resolved {| data := VNull; error := failed_to_fetch |}.
Proof.
  repeat apply conj; try reflexivity. discriminate.
Qed.

End TransportFailure.

(* ================================================================== *)
(** * Properties of the auth facade                                    *)
(* ================================================================== *)

Section SessionClaims.
Import Js Http Page.
Local Open Scope list_scope.

Lemma nth_error_snoc {A} (l : list A) (x : A) :
  nth_error (l ++ [x]) (length l) = Some x.
Proof. rewrite nth_error_app2, Nat.sub_diag by lia. reflexivity. Qed.

Lemma set_nth_snoc {A} (l : list A) (x y : A) :
  auth.set_nth (length l) y (l ++ [x]) = (l ++ [y])%list.
Proof. induction l as [|a l IH]; simpl; [reflexivity | now rewrite IH]. Qed.

Lemma remove_nth_snoc {A} (l : list A) (x : A) :
  auth.remove_nth (length l) (l ++ [x]) = l.
Proof. induction l as [|a l IH]; simpl; [reflexivity | now rewrite IH]. Qed.

Lemma exec_app (API_BASE : string) (net : transport) (es1 es2 : list auth.event)
  (w : world) :
  auth.exec API_BASE net w (es1 ++ es2)
  = match auth.exec API_BASE net w es1 with
    | Some w1 => auth.exec API_BASE net w1 es2
    | None => None
    end.
Proof.
  revert w; induction es1 as [|e es1 IH]; intros w; simpl; [reflexivity|].
  destruct (auth.step API_BASE net w e); [apply IH | reflexivity].
Qed.

(** One poll of the newest subscription, from its tick to the end of its
    callback, with no other event in between. *)
Lemma poll_round (API_BASE : string) (net : transport)
  (sent0 : list request) (cur : value) (subs : list subscription)
  (last0 : option string) (fl : list (nat * fetch_outcome))
  (told : list notification) (r : result) :
  api_settle (net sent0 (poll_request API_BASE)) = Resolved r ->
  auth.exec API_BASE net
    {| sent := sent0; __currentSession := cur;
       subscriptions := subs ++ [{| last := last0; active := true |}];
       inflight := fl; notified := told |}
    [auth.EvTick (length subs); auth.EvSettle (length fl)]
  = Some
      (if negb (auth.option_string_eqb
                  (JSON_stringify (auth.session_of (data r))) last0)
       then
         {| sent := sent0 ++ [poll_request API_BASE];
            __currentSession := auth.session_of (data r);
            subscriptions :=
              subs ++ [{| last := JSON_stringify (auth.session_of (data r));
                          active := true |}];
            inflight := fl;
            notified :=
              told ++
              [{| n_callback := length subs;
                  n_event := if truthy (auth.session_of (data r))
                             then "SIGNED_IN" else "SIGNED_OUT";
                  n_session := auth.session_of (data r) |}] |}
       else
         {| sent := sent0 ++ [poll_request API_BASE];
            __currentSession := cur;
            subscriptions := subs ++ [{| last := last0; active := true |}];
            inflight := fl; notified := told |}).
Proof.
  intros Hr. unfold auth.exec, auth.step, auth.poll_begin. simpl subscriptions.
  rewrite nth_error_snoc. simpl active. cbv iota.
  unfold auth.poll_settle. simpl inflight. rewrite nth_error_snoc, remove_nth_snoc.
  unfold auth.poll_resume. simpl sent. fold (poll_request API_BASE). rewrite Hr.
  simpl subscriptions. rewrite nth_error_snoc. simpl last. simpl active.
  destruct (negb _); simpl; rewrite ?set_nth_snoc; reflexivity.
Qed.

(** C6, as the code has it.  Take a page whose cached session is null
    (or any other falsy value) and subscribe a callback.  When its four
    successive polls are answered with the bodies null, the user u1, the
    user u1 and null, the record of invocations grows by exactly two:
    SIGNED_IN with the session of u1 after the second poll, nothing after
    the third, SIGNED_OUT with null after the fourth. *)
Theorem four_polls_notify_twice
  (API_BASE : string) (net : transport) (w : world) :
  truthy (__currentSession w) = false ->
  (forall k, (k < 4)%nat ->
     exists r,
       api_settle (net (sent w ++ repeat (poll_request API_BASE) k)
                       (poll_request API_BASE)) = Resolved r /\
       data r = nth k four_answers VNull) ->
  told_after API_BASE net w 1 = Some (notified w) /\
  told_after API_BASE net w 2
    = Some (notified w ++ [signed_in (length (subscriptions w)) u1_session]) /\
  told_after API_BASE net w 3
    = Some (notified w ++ [signed_in (length (subscriptions w)) u1_session]) /\
  told_after API_BASE net w 4
    = Some (notified w ++ [signed_in (length (subscriptions w)) u1_session;
                           signed_out (length (subscriptions w))]).
Proof.
  intros Hcur Hnet.
  destruct (Hnet 0%nat ltac:(lia)) as (r0 & H0 & D0).
  destruct (Hnet 1%nat ltac:(lia)) as (r1 & H1 & D1).
  destruct (Hnet 2%nat ltac:(lia)) as (r2 & H2 & D2).
  destruct (Hnet 3%nat ltac:(lia)) as (r3 & H3 & D3).
  clear Hnet. simpl in H0, H1, H2, H3, D0, D1, D2, D3.
  rewrite app_nil_r in H0.
  destruct w as [sent0 cur subs fl told]. simpl in *.
  unfold told_after, ticks. simpl subscriptions. simpl inflight.
  set (round := [auth.EvTick (length subs); auth.EvSettle (length fl)]).
  assert (Hsub : auth.exec API_BASE net
            {| sent := sent0; __currentSession := cur; subscriptions := subs;
               inflight := fl; notified := told |} [auth.EvSubscribe]
          = Some {| sent := sent0; __currentSession := cur;
                    subscriptions := subs ++ [{| last := Some "null"; active := true |}];
                    inflight := fl; notified := told |}).
  { simpl. unfold auth.onAuthStateChange, or_else. simpl. rewrite Hcur. reflexivity. }
  set (req := poll_request API_BASE) in *.
  replace (sent0 ++ [req; req]) with ((sent0 ++ [req]) ++ [req]) in H2
    by (rewrite <- app_assoc; reflexivity).
  replace (sent0 ++ [req; req; req]) with (((sent0 ++ [req]) ++ [req]) ++ [req]) in H3
    by (rewrite <- !app_assoc; reflexivity).
  subst req.
  pose proof (poll_round API_BASE net sent0 cur subs (Some "null") fl told r0 H0) as R1.
  rewrite D0 in R1. fold round in R1.
  change (negb (auth.option_string_eqb (JSON_stringify (auth.session_of VNull))
                  (Some "null"))) with false in R1.
  cbv iota in R1.
  pose proof (poll_round API_BASE net _ cur subs (Some "null") fl told r1 H1) as R2.
  rewrite D1 in R2. fold round in R2.
  change (auth.session_of u1_body) with u1_session in R2.
  change (negb (auth.option_string_eqb (JSON_stringify u1_session) (Some "null")))
    with true in R2.
  change (truthy u1_session) with true in R2.
  cbv iota in R2.
  pose proof (poll_round API_BASE net _ u1_session subs (JSON_stringify u1_session) fl
                (told ++ [{| n_callback := length subs; n_event := "SIGNED_IN";
                             n_session := u1_session |}]) r2 H2) as R3.
  rewrite D2 in R3. fold round in R3.
  change (auth.session_of u1_body) with u1_session in R3.
  change (negb (auth.option_string_eqb (JSON_stringify u1_session)
                  (JSON_stringify u1_session))) with false in R3.
  cbv iota in R3.
  pose proof (poll_round API_BASE net _ u1_session subs (JSON_stringify u1_session) fl
                (told ++ [{| n_callback := length subs; n_event := "SIGNED_IN";
                             n_session := u1_session |}]) r3 H3) as R4.
  rewrite D3 in R4. fold round in R4.
  change (auth.session_of VNull) with VNull in R4.
  change (negb (auth.option_string_eqb (JSON_stringify VNull)
                  (JSON_stringify u1_session))) with true in R4.
  change (truthy VNull) with false in R4.
  cbv iota in R4.
  repeat apply conj.
  - change (auth.EvSubscribe :: concat (repeat round 1))
      with ([auth.EvSubscribe] ++ round).
    rewrite exec_app, Hsub. cbv beta iota. rewrite R1. reflexivity.
  - change (auth.EvSubscribe :: concat (repeat round 2))
      with (([auth.EvSubscribe] ++ round) ++ round).
    rewrite !exec_app, Hsub. cbv beta iota. rewrite R1. cbv beta iota.
    rewrite R2. reflexivity.
  - change (auth.EvSubscribe :: concat (repeat round 3))
      with ((([auth.EvSubscribe] ++ round) ++ round) ++ round).
    rewrite !exec_app, Hsub. cbv beta iota. rewrite R1. cbv beta iota.
    rewrite R2. cbv beta iota. rewrite R3. reflexivity.
  - change (auth.EvSubscribe :: concat (repeat round 4))
      with (((([auth.EvSubscribe] ++ round) ++ round) ++ round) ++ round).
    rewrite !exec_app, Hsub. cbv beta iota. rewrite R1. cbv beta iota.
    rewrite R2. cbv beta iota. rewrite R3. cbv beta iota. rewrite R4.
    simpl. rewrite <- app_assoc. reflexivity.
Qed.

Lemma four_polls_notify_twice_witness :
  truthy (__currentSession fresh) = false /\
  told_after "/api" (scripted four_answers) fresh 4
  = Some [signed_in 0 u1_session; signed_out 0].
Proof.
  split; [reflexivity|].
  refine (proj2 (proj2 (proj2
            (four_polls_notify_twice "/api" (scripted four_answers) fresh
               eq_refl _)))).
  intros k Hk.
  destruct k as [|[|[|[|k]]]]; try lia; eexists; split; reflexivity.
Defined.

(** C6 as stated fails when a session is cached at subscription: the
    subscriber starts from the cached session, so after [getSession] has
    cached the user u1 the first null answer is a change.  The four
    answers null, u1, u1, null then give three notifications: SIGNED_OUT,
    SIGNED_IN, SIGNED_OUT. *)
Lemma four_polls_notify_thrice_when_signed_in :
  option_map __currentSession
    (auth.exec "/api" (scripted (u1_body :: four_answers)) fresh
       [auth.EvGetSession])
  = Some u1_session /\
  option_map notified
    (auth.exec "/api" (scripted (u1_body :: four_answers)) fresh
       (auth.EvGetSession :: auth.EvSubscribe :: ticks 0 0 4))
  = Some [signed_out 0; signed_in 0 u1_session; signed_out 0] /\
  option_map notified
    (auth.exec "/api" (scripted (u1_body :: four_answers)) fresh
       (auth.EvGetSession :: auth.EvSubscribe :: ticks 0 0 4))
  <> Some [signed_in 0 u1_session; signed_out 0] /\
  told_after "/api" (scripted four_answers) signed_in_page 4
  = Some [signed_out 0; signed_in 0 u1_session; signed_out 0].
Proof.
  repeat apply conj; try (vm_compute; reflexivity).
  vm_compute. discriminate.
Qed.

(** The same four polls on a freshly loaded page, the signed-out answers
    being either null or the object with a null user, whatever the base
    of the API. *)
Lemma four_polls_on_a_fresh_page (API_BASE : string) :
  (notified_after API_BASE four_answers 1 = Some [] /\
   notified_after API_BASE four_answers 2 = Some [signed_in 0 u1_session] /\
   notified_after API_BASE four_answers 3 = Some [signed_in 0 u1_session] /\
   notified_after API_BASE four_answers 4
     = Some [signed_in 0 u1_session; signed_out 0]) /\
  (notified_after API_BASE [nobody_body; u1_body; u1_body; nobody_body] 1
     = Some [] /\
   notified_after API_BASE [nobody_body; u1_body; u1_body; nobody_body] 2
     = Some [signed_in 0 u1_session] /\
   notified_after API_BASE [nobody_body; u1_body; u1_body; nobody_body] 3
     = Some [signed_in 0 u1_session] /\
   notified_after API_BASE [nobody_body; u1_body; u1_body; nobody_body] 4
     = Some [signed_in 0 u1_session; signed_out 0]).
Proof.
  repeat apply conj; reflexivity.
Qed.

(** C7, as the code has it.  On an ok JSON response whose body [d] is not
    null, [signInWithPassword] stores the session of [d.user] in the
    cache at once and resolves with that user; [signUp] resolves with
    that user and leaves the cached session as it was. *)
Theorem sign_in_caches_the_session_sign_up_does_not
  (API_BASE : string) (net : transport) (c : credentials) (w : world)
  (res : response) (d : value) :
  res_ok res = true -> is_json res = true -> res_json res = Resolved d ->
  nullish d = false ->
  let session := VObj [("user", get_prop d "user")] in
  (net (sent w)
       (api_request API_BASE "/auth/signin" (auth.post (auth.credentials_body c)))
   = FetchResponse res ->
   fst (auth.signInWithPassword API_BASE net c w)
   = Resolved {| data := session; error := VNull |} /\
   __currentSession (snd (auth.signInWithPassword API_BASE net c w)) = session) /\
  (net (sent w)
       (api_request API_BASE "/auth/signup" (auth.post (auth.credentials_body c)))
   = FetchResponse res ->
   fst (auth.signUp API_BASE net c w)
   = Resolved {| data := session; error := VNull |} /\
   __currentSession (snd (auth.signUp API_BASE net c w)) = __currentSession w).
Proof.
  intros Hok Hjson Hd Hnn session.
  pose proof (api_finish_ok res d Hok Hjson Hd) as Hfin.
  split; intros Hnet.
  - unfold auth.signInWithPassword, bind.
    rewrite api_spec, Hnet. simpl api_settle. rewrite Hfin. simpl.
    unfold member. rewrite Hnn. simpl. split; reflexivity.
  - unfold auth.signUp, bind.
    rewrite api_spec, Hnet. simpl api_settle. rewrite Hfin. simpl.
    unfold member. rewrite Hnn. simpl. split; reflexivity.
Qed.

Lemma sign_in_caches_the_session_sign_up_does_not_witness :
  nullish u1_body = false /\
  __currentSession
    (snd (auth.signInWithPassword "/api" (scripted [u1_body]) dev_credentials fresh))
  = u1_session /\
  __currentSession (snd (auth.signUp "/api" (scripted [u1_body]) dev_credentials fresh))
  = VNull.
Proof.
  split; [reflexivity|].
  destruct (sign_in_caches_the_session_sign_up_does_not "/api" (scripted [u1_body])
              dev_credentials fresh (json_ok u1_body) u1_body
              eq_refl eq_refl eq_refl eq_refl)
    as [Hin Hup].
  split.
  - exact (proj2 (Hin eq_refl)).
  - exact (proj2 (Hup eq_refl)).
Defined.

(** C7 as stated fails for [signUp]: after a successful sign-up on a
    fresh page the cached session is still null, where a successful
    sign-in has cached the session of the user. *)
Lemma sign_up_leaves_the_cache_unset :
  fst (auth.signUp "/api" (scripted [u1_body]) dev_credentials fresh)
  = Resolved {| data := u1_session; error := VNull |} /\
  __currentSession (snd (auth.signUp "/api" (scripted [u1_body]) dev_credentials fresh))
  = VNull /\
  __currentSession (snd (auth.signUp "/api" (scripted [u1_body]) dev_credentials fresh))
    <> u1_session /\
  __currentSession
    (snd (auth.signInWithPassword "/api" (scripted [u1_body]) dev_credentials fresh))
  = u1_session.
Proof.
  repeat apply conj; try reflexivity. discriminate.
Qed.

End SessionClaims.

Section QuietFacts.
Import Js Http Page.
Local Open Scope async_scope.

Lemma same_timers_refl (w : world) : same_timers w w.
Proof. repeat split. Qed.

Lemma same_timers_trans (w1 w2 w3 : world) :
  same_timers w1 w2 -> same_timers w2 w3 -> same_timers w1 w3.
Proof.
  intros (A1 & B1 & C1) (A2 & B2 & C2).
  repeat split; congruence.
Qed.

Lemma quiet_ret {A} (a : A) : quiet (ret a).
Proof. intros w. apply same_timers_refl. Qed.

Lemma quiet_settle {A} (o : outcome A) : quiet (settle o).
Proof. intros w. apply same_timers_refl. Qed.

Lemma quiet_fetch (net : transport) (r : request) : quiet (fetch net r).
Proof. intros w. repeat split. Qed.

Lemma quiet_set_currentSession (v : value) : quiet (set_currentSession v).
Proof. intros w. repeat split. Qed.

Lemma quiet_bind {A B} (m : Async A) (k : A -> Async B) :
  quiet m -> (forall a, quiet (k a)) -> quiet (bind m k).
Proof.
  intros Hm Hk w. unfold bind.
  specialize (Hm w). destruct (m w) as [[a|e] w1]; simpl in *.
  - eapply same_timers_trans; [exact Hm | apply Hk].
  - exact Hm.
Qed.

Lemma quiet_if {A} (c : bool) (m1 m2 : Async A) :
  quiet m1 -> quiet m2 -> quiet (if c then m1 else m2).
Proof. now destruct c. Qed.

Lemma quiet_api (API_BASE : string) (net : transport) (path : string)
  (opts : api_opts) : quiet (api API_BASE net path opts).
Proof.
  unfold api. apply quiet_bind; [apply quiet_fetch | intros; apply quiet_settle].
Qed.

Lemma quiet_run (API_BASE : string) (net : transport) (b : builder_t) :
  quiet (run API_BASE net b).
Proof. unfold run. destruct (state.method (st b)); apply quiet_api. Qed.

Create HintDb quiet.
#[local] Hint Resolve quiet_ret quiet_settle quiet_fetch
  quiet_set_currentSession quiet_api quiet_run : quiet.

Ltac quiet_tac :=
  repeat first
    [ apply quiet_bind; [|intros ?]
    | apply quiet_if
    | solve [auto with quiet] ].

Lemma quiet_getUser API_BASE net : quiet (auth.getUser API_BASE net).
Proof. unfold auth.getUser. quiet_tac. Qed.

Lemma quiet_getSession API_BASE net : quiet (auth.getSession API_BASE net).
Proof. unfold auth.getSession. quiet_tac. Qed.

Lemma quiet_signInWithPassword API_BASE net c :
  quiet (auth.signInWithPassword API_BASE net c).
Proof. unfold auth.signInWithPassword. quiet_tac. Qed.

Lemma quiet_signUp API_BASE net c : quiet (auth.signUp API_BASE net c).
Proof. unfold auth.signUp. quiet_tac. Qed.

Lemma quiet_signOut API_BASE net : quiet (auth.signOut API_BASE net).
Proof. unfold auth.signOut. quiet_tac. Qed.

Lemma quiet_updateUser API_BASE net p : quiet (auth.updateUser API_BASE net p).
Proof. unfold auth.updateUser. quiet_tac. Qed.

End QuietFacts.

Section UnsubscribeFacts.
Import Js Http Page.
Variable API_BASE : string.
Variable net : transport.
Variable sub : nat.

Lemma nth_error_set_nth {A} (l : list A) (i j : nat) (x : A) :
  nth_error (auth.set_nth i x l) j
  = if Nat.eqb i j
    then match nth_error l i with Some _ => Some x | None => None end
    else nth_error l j.
Proof.
  revert i j; induction l as [|y l IH]; intros [|i] [|j]; simpl;
    try reflexivity.
  - destruct (Nat.eqb i j); reflexivity.
  - apply IH.
Qed.

Lemma filter_remove_nth {A} (f : A -> bool) (l : list A) (i : nat) (x : A) :
  nth_error l i = Some x ->
  length (filter f l)
  = (length (filter f (auth.remove_nth i l)) + if f x then 1 else 0)%nat.
Proof.
  revert i; induction l as [|y l IH]; intros [|i] H; simpl in *;
    try discriminate.
  - injection H as ->. destruct (f x); simpl; lia.
  - specialize (IH i H). destruct (f y); simpl; lia.
Qed.

Lemma drained_refl (w : world) : drained sub w w.
Proof. exists []. rewrite app_nil_r. split; [reflexivity | simpl; lia]. Qed.

Lemma drained_trans (w1 w2 w3 : world) :
  drained sub w1 w2 -> drained sub w2 w3 -> drained sub w1 w3.
Proof.
  intros (x1 & E1 & L1) (x2 & E2 & L2). exists (x1 ++ x2)%list. split.
  - now rewrite E2, E1, app_assoc.
  - rewrite length_app. lia.
Qed.

Lemma same_timers_drained (w w' : world) :
  same_timers w w' -> drained sub w w'.
Proof.
  intros (Hs & Hi & Hn). exists []. unfold auth.calls_of, auth.pending_of.
  rewrite Hi, Hn, app_nil_r. split; [reflexivity | simpl; lia].
Qed.

Lemma same_timers_cleared (w w' : world) :
  same_timers w w' -> cleared sub w -> cleared sub w'.
Proof. intros (Hs & _) (s & H1 & H2). exists s. now rewrite Hs. Qed.

(** The rest of a poll: the callback of [sub] is invoked at most once,
    and only by a poll of [sub]; no timer is set again. *)
Lemma poll_resume_calls (s' : nat) (o : fetch_outcome) (w : world) :
  cleared sub w ->
  cleared sub (auth.poll_resume s' o w) /\
  inflight (auth.poll_resume s' o w) = inflight w /\
  exists extra : list notification,
    auth.calls_of sub (auth.poll_resume s' o w)
    = (auth.calls_of sub w ++ extra)%list /\
    (length extra <= if Nat.eqb s' sub then 1 else 0)%nat.
Proof.
  intros (s & Hs & Hact). unfold auth.poll_resume.
  assert (Hsame : cleared sub w /\ inflight w = inflight w /\
                  exists extra : list notification,
                    auth.calls_of sub w = (auth.calls_of sub w ++ extra)%list /\
                    (length extra <= if Nat.eqb s' sub then 1 else 0)%nat).
  { split; [now exists s|]. split; [reflexivity|].
    exists []. rewrite app_nil_r. split; [reflexivity | simpl; lia]. }
  destruct (api_settle o) as [r|e]; [|exact Hsame].
  destruct (nth_error (subscriptions w) s') as [t|] eqn:Ht; [|exact Hsame].
  destruct (negb _); [|exact Hsame].
  split; [|split; [reflexivity|]].
  - unfold cleared. simpl. rewrite nth_error_set_nth, Ht.
    destruct (Nat.eqb s' sub) eqn:E.
    + apply Nat.eqb_eq in E. subst s'. rewrite Hs in Ht. injection Ht as <-.
      eexists. split; [reflexivity | exact Hact].
    + now exists s.
  - unfold auth.calls_of. simpl. rewrite filter_app. simpl.
    destruct (Nat.eqb s' sub); eexists; split; try reflexivity; simpl; lia.
Qed.

(** One event on a page where the timer of [sub] is cleared. *)
Lemma step_cleared (w w' : world) (e : auth.event) :
  cleared sub w ->
  auth.step API_BASE net w e = Some w' ->
  cleared sub w' /\ e <> auth.EvTick sub /\ drained sub w w'.
Proof.
  intros Hc Hstep.
  assert (Hquiet : forall w1, same_timers w w1 ->
            cleared sub w1 /\ drained sub w w1).
  { intros w1 H. split; [eapply same_timers_cleared | apply same_timers_drained];
      eassumption. }
  destruct e as [|s'|i|s'| | |c|c| |p|b]; simpl in Hstep.
  - (* a new subscription *)
    injection Hstep as <-. destruct Hc as (s & Hs & Hact).
    split; [|split; [discriminate|]].
    + exists s. simpl. split; [|exact Hact].
      rewrite nth_error_app1; [exact Hs|].
      apply nth_error_Some. congruence.
    + exists []. unfold auth.calls_of, auth.pending_of. simpl.
      rewrite app_nil_r. split; [reflexivity | lia].
  - (* the interval of s' fires: s' is not sub *)
    unfold auth.poll_begin in Hstep.
    destruct (nth_error (subscriptions w) s') as [t|] eqn:Ht; [|discriminate].
    destruct (active t) eqn:Hat; [|discriminate].
    injection Hstep as <-. destruct Hc as (s & Hs & Hact).
    assert (Hne : s' <> sub).
    { intros ->. rewrite Hs in Ht. injection Ht as <-. congruence. }
    split; [|split].
    + exists s. simpl. auto.
    + intros Heq. injection Heq as Heq. contradiction.
    + exists []. unfold auth.calls_of, auth.pending_of. simpl.
      rewrite app_nil_r, filter_app. simpl.
      apply Nat.eqb_neq in Hne. rewrite Hne. rewrite app_nil_r.
      split; [reflexivity | simpl; lia].
  - (* a poll in flight settles *)
    unfold auth.poll_settle in Hstep.
    destruct (nth_error (inflight w) i) as [[s' o]|] eqn:Hi; [|discriminate].
    injection Hstep as <-.
    set (w1 := {| sent := sent w; __currentSession := __currentSession w;
                  subscriptions := subscriptions w;
                  inflight := auth.remove_nth i (inflight w);
                  notified := notified w |}).
    assert (Hc1 : cleared sub w1) by exact Hc.
    destruct (poll_resume_calls s' o w1 Hc1) as (Hc2 & Hfl & extra & Hcalls & Hlen).
    split; [exact Hc2|]. split; [discriminate|].
    exists extra. split; [exact Hcalls|].
    unfold auth.pending_of at 1. rewrite Hfl. unfold auth.pending_of. simpl.
    rewrite (filter_remove_nth (fun p => Nat.eqb (fst p) sub) (inflight w) i (s', o) Hi).
    simpl fst. destruct (Nat.eqb s' sub); lia.
  - (* an unsubscribe *)
    injection Hstep as <-. unfold auth.unsubscribe.
    destruct (nth_error (subscriptions w) s') as [t|] eqn:Ht.
    + destruct Hc as (s & Hs & Hact).
      split; [|split; [discriminate|]].
      * unfold cleared. simpl. rewrite nth_error_set_nth, Ht.
        destruct (Nat.eqb s' sub).
        -- eexists. split; reflexivity.
        -- now exists s.
      * exists []. unfold auth.calls_of, auth.pending_of. simpl.
        rewrite app_nil_r. split; [reflexivity | lia].
    + split; [exact Hc|]. split; [discriminate | apply drained_refl].
  - injection Hstep as <-. destruct (Hquiet _ (quiet_getUser API_BASE net w)).
    repeat split; [assumption | discriminate | assumption].
  - injection Hstep as <-. destruct (Hquiet _ (quiet_getSession API_BASE net w)).
    repeat split; [assumption | discriminate | assumption].
  - injection Hstep as <-.
    destruct (Hquiet _ (quiet_signInWithPassword API_BASE net c w)).
    repeat split; [assumption | discriminate | assumption].
  - injection Hstep as <-. destruct (Hquiet _ (quiet_signUp API_BASE net c w)).
    repeat split; [assumption | discriminate | assumption].
  - injection Hstep as <-. destruct (Hquiet _ (quiet_signOut API_BASE net w)).
    repeat split; [assumption | discriminate | assumption].
  - injection Hstep as <-. destruct (Hquiet _ (quiet_updateUser API_BASE net p w)).
    repeat split; [assumption | discriminate | assumption].
  - injection Hstep as <-. destruct (Hquiet _ (quiet_run API_BASE net b w)).
    repeat split; [assumption | discriminate | assumption].
Qed.

End UnsubscribeFacts.

Section UnsubscribeClaims.
Import Js Http Page.

(** Any run of events from a page where the timer of [sub] is cleared. *)
Lemma exec_cleared (API_BASE : string) (net : transport) (sub : nat)
  (es : list auth.event) (w w' : world) :
  cleared sub w ->
  auth.exec API_BASE net w es = Some w' ->
  ~ In (auth.EvTick sub) es /\ drained sub w w'.
Proof.
  revert w; induction es as [|e es IH]; intros w Hc Hexec; simpl in Hexec.
  - injection Hexec as <-. split; [intros [] | apply drained_refl].
  - destruct (auth.step API_BASE net w e) as [w1|] eqn:Hstep; [|discriminate].
    destruct (step_cleared API_BASE net sub w w1 e Hc Hstep) as (Hc1 & Hne & Hd1).
    destruct (IH w1 Hc1 Hexec) as (Hnot & Hd2).
    split.
    + intros [Heq | Hin]; [now apply Hne | now apply Hnot].
    + eapply drained_trans; eassumption.
Qed.

(** C3, as the code has it.  [unsubscribe] clears the timer and nothing
    else.  In every run of events after it returns, the interval of the
    subscription never fires again, and its callback is invoked at most
    once for each of its polls that was in flight when [unsubscribe] was
    called: the invocations recorded before stay, at most that many
    follow.  With no poll in flight at that moment the callback is never
    invoked again. *)
Theorem unsubscribed_callback_is_left_to_polls_in_flight
  (API_BASE : string) (net : transport) (sub : nat) (es : list auth.event)
  (w w' : world) :
  (sub < length (subscriptions w))%nat ->
  auth.exec API_BASE net (auth.unsubscribe sub w) es = Some w' ->
  ~ In (auth.EvTick sub) es /\
  (exists extra : list notification,
     auth.calls_of sub w' = (auth.calls_of sub w ++ extra)%list /\
     (length extra <= auth.pending_of sub w)%nat) /\
  (auth.pending_of sub w = 0%nat -> auth.calls_of sub w' = auth.calls_of sub w).
Proof.
  intros Hsub Hexec.
  destruct (nth_error (subscriptions w) sub) as [s|] eqn:Hs.
  2:{ apply nth_error_None in Hs. lia. }
  assert (Hc : cleared sub (auth.unsubscribe sub w)).
  { unfold cleared, auth.unsubscribe. rewrite Hs. simpl.
    rewrite nth_error_set_nth, Nat.eqb_refl, Hs.
    eexists. split; reflexivity. }
  assert (Hcalls : auth.calls_of sub (auth.unsubscribe sub w) = auth.calls_of sub w).
  { unfold auth.unsubscribe. rewrite Hs. reflexivity. }
  assert (Hpend : auth.pending_of sub (auth.unsubscribe sub w) = auth.pending_of sub w).
  { unfold auth.unsubscribe. rewrite Hs. reflexivity. }
  destruct (exec_cleared API_BASE net sub es _ w' Hc Hexec)
    as (Hnot & extra & Hex & Hlen).
  rewrite Hcalls in Hex. rewrite Hpend in Hlen.
  split; [exact Hnot|]. split.
  - exists extra. split; [exact Hex | lia].
  - intros Hzero. rewrite Hex.
    destruct extra; [now rewrite app_nil_r | simpl in Hlen; lia].
Qed.

Lemma unsubscribed_callback_is_left_to_polls_in_flight_witness :
  (0 < length (subscriptions (snd (auth.onAuthStateChange fresh))))%nat /\
  exists w' : world,
    auth.exec "/api" (scripted [u1_body; u1_body])
      (auth.unsubscribe 0 (snd (auth.onAuthStateChange fresh)))
      [auth.EvSubscribe; auth.EvGetSession; auth.EvTick 1; auth.EvSettle 0]
    = Some w' /\
    auth.calls_of 1 w' = [signed_in 1 u1_session] /\
    auth.calls_of 0 w' = auth.calls_of 0 (snd (auth.onAuthStateChange fresh)).
Proof.
  assert (Hlt : (0 < length (subscriptions (snd (auth.onAuthStateChange fresh))))%nat)
    by (simpl; lia).
  split; [exact Hlt|].
  eexists. split; [reflexivity|]. split; [reflexivity|].
  apply (proj2 (proj2 (unsubscribed_callback_is_left_to_polls_in_flight
                         "/api" (scripted [u1_body; u1_body]) 0
                         [auth.EvSubscribe; auth.EvGetSession; auth.EvTick 1;
                          auth.EvSettle 0]
                         (snd (auth.onAuthStateChange fresh)) _
                         Hlt eq_refl))).
  reflexivity.
Defined.

(** C3 as stated fails: a poll in flight when [unsubscribe] is called
    still invokes the callback when it settles with a changed session. *)
Lemma poll_in_flight_notifies_after_unsubscribe :
  exists w0 w2 : world,
    auth.exec "/api" (scripted [u1_body]) fresh [auth.EvSubscribe; auth.EvTick 0]
    = Some w0 /\
    auth.calls_of 0 (auth.unsubscribe 0 w0) = [] /\
    auth.exec "/api" (scripted [u1_body]) (auth.unsubscribe 0 w0) [auth.EvSettle 0]
    = Some w2 /\
    auth.calls_of 0 w2 = [signed_in 0 u1_session].
Proof.
  eexists. eexists.
  split; [reflexivity|]. split; [reflexivity|]. split; reflexivity.
Qed.

End UnsubscribeClaims.

(* ================================================================== *)
(** * Further properties of the query builder                          *)
(* ================================================================== *)

Section FilterFacts.
Import Js Http Page.

Lemma lookup_none_not_in (k : string) (o : list (string * value)) :
  lookup k o = None <-> ~ In k (map fst o).
Proof.
  induction o as [|[k' v'] o IH]; simpl.
  - split; [intros _ [] | reflexivity].
  - destruct (String.eqb_spec k k') as [->|Hne].
    + split; [discriminate | intros H; exfalso; apply H; now left].
    + rewrite IH. split.
      * intros H [Heq | Hin]; [congruence | contradiction].
      * intros H Hin. apply H. now right.
Qed.

Lemma replace_key_keys (k : string) (v : value) (o : list (string * value)) :
  map fst (replace_key k v o) = map fst o.
Proof.
  induction o as [|[k' v'] o IH]; simpl; [reflexivity|].
  destruct (k =? k'); simpl; [reflexivity | now rewrite IH].
Qed.

Lemma insert_key_in (k x : string) (v : value) (o : list (string * value)) :
  In x (map fst (insert_key k v o)) <-> x = k \/ In x (map fst o).
Proof.
  induction o as [|[k' v'] o IH]; simpl.
  - intuition.
  - destruct (array_index k) as [i|]; [destruct (array_index k') as [j|];
      [destruct (i <? j)%N|]|]; simpl; rewrite ?IH; intuition.
Qed.

Lemma insert_key_nodup (k : string) (v : value) (o : list (string * value)) :
  ~ In k (map fst o) -> NoDup (map fst o) -> NoDup (map fst (insert_key k v o)).
Proof.
  induction o as [|[k' v'] o IH]; simpl; intros Hk Hnd.
  - constructor; [intros [] | constructor].
  - inversion Hnd as [|? ? Hk' Hnd']; subst.
    assert (Hstep : NoDup (k' :: map fst (insert_key k v o))).
    { constructor.
      - rewrite insert_key_in. intros [-> | Hin]; [apply Hk; now left | contradiction].
      - apply IH; [intros Hin; apply Hk; now right | assumption]. }
    assert (Hfront : NoDup (k :: k' :: map fst o)).
    { constructor; assumption. }
    destruct (array_index k) as [i|]; [destruct (array_index k') as [j|];
      [destruct (i <? j)%N|]|]; simpl; assumption.
Qed.

(** Assignment keeps the keys of the filters distinct. *)
Lemma obj_set_nodup (k : string) (v : value) (o : list (string * value)) :
  NoDup (map fst o) -> NoDup (map fst (obj_set k v o)).
Proof.
  intros Hnd. unfold obj_set. destruct (lookup k o) eqn:Hl.
  - now rewrite replace_key_keys.
  - apply insert_key_nodup; [now apply lookup_none_not_in | assumption].
Qed.

Lemma lookup_replace_key (k k' : string) (v : value) (o : list (string * value)) :
  lookup k' (replace_key k v o)
  = if k' =? k then match lookup k o with Some _ => Some v | None => None end
    else lookup k' o.
Proof.
  induction o as [|[k0 v0] o IH]; simpl.
  - now destruct (k' =? k).
  - destruct (String.eqb_spec k k0) as [->|Hne]; simpl.
    + destruct (k' =? k0); reflexivity.
    + rewrite IH. destruct (String.eqb_spec k' k0) as [->|Hne'].
      * destruct (String.eqb_spec k0 k); [congruence | reflexivity].
      * reflexivity.
Qed.

Lemma lookup_insert_key (k k' : string) (v : value) (o : list (string * value)) :
  lookup k o = None ->
  lookup k' (insert_key k v o) = if k' =? k then Some v else lookup k' o.
Proof.
  induction o as [|[k0 v0] o IH]; simpl; intros Hnone.
  - reflexivity.
  - destruct (String.eqb_spec k k0) as [->|Hne]; [discriminate|].
    specialize (IH Hnone).
    assert (Hcons : lookup k' ((k0, v0) :: insert_key k v o)
                    = if k' =? k then Some v
                      else if k' =? k0 then Some v0 else lookup k' o).
    { simpl. rewrite IH.
      destruct (String.eqb_spec k' k0) as [->|]; [|reflexivity].
      destruct (String.eqb_spec k0 k); [congruence | reflexivity]. }
    destruct (array_index k) as [i|]; [destruct (array_index k0) as [j|];
      [destruct (i <? j)%N|]|]; try exact Hcons; simpl;
      destruct (k' =? k); reflexivity.
Qed.

(** Reading a filter back after an assignment. *)
Lemma lookup_obj_set (k k' : string) (v : value) (o : list (string * value)) :
  lookup k' (obj_set k v o) = if k' =? k then Some v else lookup k' o.
Proof.
  unfold obj_set. destruct (lookup k o) eqn:Hl.
  - rewrite lookup_replace_key, Hl. reflexivity.
  - now apply lookup_insert_key.
Qed.

(** Every key but [__proto__] is assigned as an own property. *)
Lemma obj_assign_other (k : string) (v : value)
  (o : list (string * value)) (p : prototype) :
  k <> "__proto__" -> obj_assign k v (o, p) = (obj_set k v o, p).
Proof.
  intros Hk. unfold obj_assign.
  destruct (String.eqb_spec k "__proto__"); [contradiction | reflexivity].
Qed.

Lemma obj_assign_nodup (k : string) (v : value)
  (o : list (string * value)) (p : prototype) :
  NoDup (map fst o) -> NoDup (map fst (fst (obj_assign k v (o, p)))).
Proof.
  intros Hnd. unfold obj_assign. cbn [fst snd].
  destruct (k =? "__proto__"); [|now apply obj_set_nodup].
  destruct (lookup k o) eqn:Hl.
  - cbn [fst]. now rewrite replace_key_keys.
  - destruct (find_proto_key p); cbn [fst]; try assumption;
      (apply insert_key_nodup; [now apply lookup_none_not_in | assumption]).
Qed.

(** An assignment leaves the other keys as they are. *)
Lemma lookup_obj_assign_other (k k' : string) (v : value)
  (o : list (string * value)) (p : prototype) :
  k' <> k -> lookup k' (fst (obj_assign k v (o, p))) = lookup k' o.
Proof.
  intros Hne. apply String.eqb_neq in Hne.
  unfold obj_assign. cbn [fst snd].
  destruct (k =? "__proto__").
  - destruct (lookup k o) eqn:Hl.
    + cbn [fst]. now rewrite lookup_replace_key, Hne.
    + destruct (find_proto_key p); cbn [fst]; try reflexivity;
        now rewrite lookup_insert_key, Hne.
  - cbn [fst]. now rewrite lookup_obj_set, Hne.
Qed.

(** With distinct keys, the entries under one key are the one looked up. *)
Lemma filter_key_lookup (k : string) (o : list (string * value)) :
  NoDup (map fst o) ->
  filter (fun kv => fst kv =? k) o
  = match lookup k o with Some v => [(k, v)] | None => [] end.
Proof.
  induction o as [|[k0 v0] o IH]; simpl; intros Hnd; [reflexivity|].
  inversion Hnd as [|? ? Hk0 Hnd']; subst.
  rewrite (String.eqb_sym k k0).
  destruct (String.eqb_spec k0 k) as [->|Hne].
  - f_equal. rewrite IH by assumption.
    apply lookup_none_not_in in Hk0. now rewrite Hk0.
  - now apply IH.
Qed.

End FilterFacts.

Section ChainProperties.
Import Js Http Page.

Lemma apply_call_filters_nodup (b : builder_t) (c : call) :
  NoDup (map fst (state.filters (st b))) ->
  NoDup (map fst (state.filters (st (apply_call b c)))).
Proof. destruct c; simpl; auto. apply obj_assign_nodup. Qed.

Lemma calls_filters_nodup (calls : list call) (b : builder_t) :
  NoDup (map fst (state.filters (st b))) ->
  NoDup (map fst (state.filters (st (fold_left apply_call calls b)))).
Proof.
  revert b; induction calls as [|c calls IH]; intros b H; simpl; [exact H|].
  apply IH. now apply apply_call_filters_nodup.
Qed.

Lemma chain_filters_nodup (table : string) (calls : list call) :
  NoDup (map fst (state.filters (st (chain table calls)))).
Proof. apply calls_filters_nodup. constructor. Qed.

Lemma calls_keep_filter (column : string) (calls : list call) (b : builder_t) :
  forallb (fun c => negb (is_eq_on column c)) calls = true ->
  lookup column (state.filters (st (fold_left apply_call calls b)))
  = lookup column (state.filters (st b)).
Proof.
  revert b; induction calls as [|c calls IH]; intros b H; simpl in *.
  - reflexivity.
  - apply andb_true_iff in H as [Hc Hrest]. rewrite IH by assumption.
    destruct c; simpl in *; try reflexivity.
    apply lookup_obj_assign_other. intros ->.
    rewrite String.eqb_refl in Hc. discriminate Hc.
Qed.

Lemma getAll_eq_filters (column : string) (o : list (string * value)) :
  getAll ("eq." ++ column) (map filter_param o)
  = map (fun kv => js_String (snd kv)) (filter (fun kv => fst kv =? column) o).
Proof.
  induction o as [|[k v] o IH]; [reflexivity|].
  unfold getAll in *. simpl in *.
  destruct (k =? column); simpl; now rewrite IH.
Qed.

(** The parameters named after a filter come from the filters alone. *)
Lemma getAll_eq_buildParams (column : string) (s : state.t) :
  getAll ("eq." ++ column) (buildParams s)
  = map (fun kv => js_String (snd kv))
        (filter (fun kv => fst kv =? column) (state.filters s)).
Proof.
  rewrite buildParams_split, getAll_app. unfold base_params.
  rewrite getAll_app, getAll_eq_filters.
  assert (Ho : getAll ("eq." ++ column)
                 match state.order s with
                 | Some (c, a) => [("order", c ++ "." ++ (if a then "asc" else "desc"))]
                 | None => []
                 end = []).
  { destruct (state.order s) as [[c a]|]; reflexivity. }
  assert (Hp : getAll ("eq." ++ column) (pagination_params s) = []).
  { unfold pagination_params.
    destruct (state.range s) as [[f t]|]; [reflexivity|].
    destruct (state.limit s); reflexivity. }
  rewrite Hp, app_nil_r.
  etransitivity; [|apply app_nil_r]. f_equal. exact Ho.
Qed.

(** X1.  Filters are keyed by column: after [eq(column, v)] on a column
    other than [__proto__], and whatever calls come before it or follow
    it on other columns, the request carries exactly one parameter for
    that column, with the value of the last [eq] on it. *)
Theorem eq_last_value_per_column
  (table column : string) (v : value) (pre post : list call) :
  column <> "__proto__" ->
  forallb (fun c => negb (is_eq_on column c)) post = true ->
  getAll ("eq." ++ column)
         (buildParams (st (chain table (pre ++ Eq column v :: post))))
  = [js_String v].
Proof.
  intros Hcol Hpost. rewrite getAll_eq_buildParams.
  rewrite filter_key_lookup by apply chain_filters_nodup.
  unfold chain. rewrite fold_left_app. cbn [fold_left].
  rewrite calls_keep_filter by assumption.
  cbn [apply_call]. unfold builder.eq, with_state. cbn [st state.filters].
  rewrite obj_assign_other by exact Hcol. cbn [fst].
  rewrite lookup_obj_set, String.eqb_refl. reflexivity.
Qed.

Lemma eq_last_value_per_column_witness :
  "user_id" <> "__proto__" /\
  forallb (fun c => negb (is_eq_on "user_id" c)) [Eq "title" (VStr "a"); Limit 5] = true /\
  getAll "eq.user_id"
    (buildParams
       (st (chain "chats" ([Eq "user_id" (VStr "u1"); Select None]
                             ++ Eq "user_id" (VStr "u2")
                             :: [Eq "title" (VStr "a"); Limit 5]))))
  = ["u2"].
Proof.
  split; [discriminate|]. split; [reflexivity|].
  apply (eq_last_value_per_column "chats" "user_id" (VStr "u2")
           [Eq "user_id" (VStr "u1"); Select None]
           [Eq "title" (VStr "a"); Limit 5]);
    [discriminate | reflexivity].
Defined.

(** The key [__proto__] is not a filter on a fresh chain: the assignment
    runs the setter of [Object.prototype], the object gets no own
    property and the request no parameter.  Once the prototype is [null]
    the same call does create the property. *)
Lemma eq_on_proto_key_sends_no_parameter :
  getAll "eq.__proto__"
    (buildParams (st (chain "chats" [Eq "__proto__" (VStr "x")]))) = [] /\
  buildQS (st (chain "chats" [Eq "__proto__" (VStr "x")])) = EmptyString /\
  state.filters_proto (st (chain "chats" [Eq "__proto__" VNull])) = ProtoNull /\
  getAll "eq.__proto__"
    (buildParams (st (chain "chats" [Eq "__proto__" VNull; Eq "__proto__" (VStr "x")])))
  = ["x"].
Proof. repeat apply conj; reflexivity. Qed.

Lemma apply_call_order (b : builder_t) (c : call) :
  is_order c = false -> state.order (st (apply_call b c)) = state.order (st b).
Proof. destruct c; simpl; intros H; try reflexivity; discriminate. Qed.

Lemma calls_keep_order (calls : list call) (b : builder_t) :
  forallb (fun c => negb (is_order c)) calls = true ->
  state.order (st (fold_left apply_call calls b)) = state.order (st b).
Proof.
  revert b; induction calls as [|c calls IH]; intros b H; simpl in *.
  - reflexivity.
  - apply andb_true_iff in H as [Hc Hrest]. rewrite IH by assumption.
    apply apply_call_order. now destruct (is_order c).
Qed.

Lemma getAll_order_buildParams (s : state.t) :
  getAll "order" (buildParams s)
  = match state.order s with
    | Some (c, a) => [(c ++ "." ++ (if a then "asc" else "desc"))%string]
    | None => []
    end.
Proof.
  rewrite buildParams_split, getAll_app. unfold base_params.
  rewrite getAll_app.
  assert (Hf : getAll "order" (map filter_param (state.filters s)) = []).
  { induction (state.filters s) as [|kv l IH]; simpl; auto. }
  assert (Hp : getAll "order" (pagination_params s) = []).
  { unfold pagination_params.
    destruct (state.range s) as [[f t]|]; [reflexivity|].
    destruct (state.limit s); reflexivity. }
  rewrite Hf, Hp, app_nil_r. simpl.
  destruct (state.order s) as [[c a]|]; reflexivity.
Qed.

(** X2.  The sort key is the one of the last [order] call: the request
    carries one order parameter, column.desc when that call passed
    ascending false and column.asc otherwise (no options, or options
    without ascending, or ascending true).  A chain without [order]
    carries no order parameter. *)
Theorem order_last_call_and_default
  (table column : string) (opts : option order_opts)
  (pre post calls : list call) :
  forallb (fun c => negb (is_order c)) post = true ->
  forallb (fun c => negb (is_order c)) calls = true ->
  getAll "order" (buildParams (st (chain table (pre ++ Order column opts :: post))))
  = [(column ++ "." ++ direction opts)%string] /\
  getAll "order" (buildParams (st (chain table calls))) = [].
Proof.
  intros Hpost Hcalls. rewrite !getAll_order_buildParams. split.
  - unfold chain. rewrite fold_left_app. simpl fold_left.
    rewrite calls_keep_order by assumption. simpl.
    destruct opts as [[[[|]|]]|]; reflexivity.
  - unfold chain. rewrite calls_keep_order by assumption. reflexivity.
Qed.

Lemma order_last_call_and_default_witness :
  getAll "order"
    (buildParams
       (st (chain "ocr_bill_extractions"
              ([Select (Some "id, filename")]
                 ++ Order "created_at" (Some {| ascending := Some false |})
                 :: [Limit 50]))))
  = ["created_at.desc"] /\
  getAll "order" (buildParams (st (chain "chats" [Select None; Limit 50]))) = [].
Proof.
  apply (order_last_call_and_default "ocr_bill_extractions" "created_at"
           (Some {| ascending := Some false |})
           [Select (Some "id, filename")] [Limit 50] [Select None; Limit 50]);
    reflexivity.
Defined.

(** X3.  [select] leaves no trace: dropping every [select] call from a
    chain gives the same builder, hence the same request. *)
Theorem select_is_ignored (table : string) (calls : list call) :
  chain table calls
  = chain table (filter (fun c => negb (is_select c)) calls).
Proof.
  unfold chain. generalize (makeQueryBuilder table).
  induction calls as [|c calls IH]; intros b; simpl; [reflexivity|].
  destruct c; simpl; apply IH.
Qed.

End ChainProperties.

Section RequestProperties.
Import Js Http Page.

Lemma string_app_empty (a b : string) :
  a ++ b = EmptyString -> a = EmptyString /\ b = EmptyString.
Proof. destruct a; simpl; [auto | discriminate]. Qed.

Lemma params_toString_empty (p : URLSearchParams) :
  params_toString p = EmptyString <-> p = [].
Proof.
  split; [|intros ->; reflexivity].
  destruct p as [|[n v] rest]; [reflexivity|].
  unfold params_toString. simpl map.
  set (x := form_encode n ++ "=" ++ form_encode v).
  intros H. exfalso.
  assert (Hx : x = EmptyString).
  { destruct (map _ rest); simpl in H; [exact H|].
    now apply string_app_empty in H as [H _]. }
  unfold x in Hx. apply string_app_empty in Hx as [_ Hx]. discriminate Hx.
Qed.

(** X4.  The URL of a chain has no query string exactly when the chain
    set no filter, no order, no range and no limit: then [buildQS] gives
    the empty string, and in every other case a string that starts with
    a question mark. *)
Theorem query_string_empty_iff_nothing_set (s : state.t) :
  (buildQS s = EmptyString <->
   state.filters s = [] /\ state.order s = None /\
   state.range s = None /\ state.limit s = None) /\
  (buildQS s = EmptyString \/
   buildQS s = "?" ++ params_toString (buildParams s)).
Proof.
  assert (Hqs : buildQS s = EmptyString <-> buildParams s = []).
  { unfold buildQS. rewrite <- params_toString_empty.
    destruct (String.eqb_spec (params_toString (buildParams s)) EmptyString) as [E|E].
    - tauto.
    - split; [discriminate | contradiction]. }
  split.
  - rewrite Hqs, buildParams_split. unfold base_params, pagination_params.
    destruct (state.filters s) as [|kv l]; destruct (state.order s) as [[c a]|];
      destruct (state.range s) as [[f t]|]; destruct (state.limit s);
      simpl; split; try discriminate; try tauto;
      intros (H1 & H2 & H3 & H4); discriminate.
  - unfold buildQS.
    destruct (params_toString (buildParams s) =? EmptyString); auto.
Qed.

Lemma apply_call_method (b : builder_t) (c : call) :
  is_write c = false ->
  state.method (st (apply_call b c)) = state.method (st b) /\
  state.payload (st (apply_call b c)) = state.payload (st b).
Proof. destruct c; simpl; intros H; try (split; reflexivity); discriminate. Qed.

Lemma calls_keep_method (calls : list call) (b : builder_t) :
  forallb (fun c => negb (is_write c)) calls = true ->
  state.method (st (fold_left apply_call calls b)) = state.method (st b) /\
  state.payload (st (fold_left apply_call calls b)) = state.payload (st b).
Proof.
  revert b; induction calls as [|c calls IH]; intros b H; simpl in *.
  - split; reflexivity.
  - apply andb_true_iff in H as [Hc Hrest].
    destruct (IH (apply_call b c) Hrest) as [-> ->].
    apply apply_call_method. now destruct (is_write c).
Qed.

(** X5.  The method of the request is decided by the last [insert] or
    [update] of the chain, together with the body: POST with the JSON of
    the inserted payload, PATCH with the JSON of the update; an earlier
    [insert] or [update] is overwritten.  A chain with neither sends no
    method (a GET) and no body. *)
Theorem last_write_decides_method_and_body
  (API_BASE table : string) (p : value) (pre post calls : list call) :
  forallb (fun c => negb (is_write c)) post = true ->
  forallb (fun c => negb (is_write c)) calls = true ->
  (req_method (run_request API_BASE (chain table (pre ++ Insert p :: post)))
   = Some "POST" /\
   req_body (run_request API_BASE (chain table (pre ++ Insert p :: post)))
   = json_body p) /\
  (req_method (run_request API_BASE (chain table (pre ++ Update p :: post)))
   = Some "PATCH" /\
   req_body (run_request API_BASE (chain table (pre ++ Update p :: post)))
   = json_body p) /\
  (req_method (run_request API_BASE (chain table calls)) = None /\
   req_body (run_request API_BASE (chain table calls)) = None).
Proof.
  intros Hpost Hcalls. unfold chain, run_request.
  rewrite !fold_left_app. cbn [fold_left].
  destruct (calls_keep_method post
              (apply_call (fold_left apply_call pre (makeQueryBuilder table)) (Insert p))
              Hpost) as [-> ->].
  destruct (calls_keep_method post
              (apply_call (fold_left apply_call pre (makeQueryBuilder table)) (Update p))
              Hpost) as [-> ->].
  destruct (calls_keep_method calls (makeQueryBuilder table) Hcalls) as [-> _].
  simpl. repeat split.
Qed.

Lemma last_write_decides_method_and_body_witness :
  req_method (run_request "/api"
                (chain "chats" ([Insert (VObj [("title", VStr "a")])]
                                  ++ Update (VObj [("title", VStr "b")])
                                  :: [Eq "id" (VStr "c1")])))
  = Some "PATCH" /\
  req_body (run_request "/api"
              (chain "chats" ([Insert (VObj [("title", VStr "a")])]
                                ++ Update (VObj [("title", VStr "b")])
                                :: [Eq "id" (VStr "c1")])))
  = json_body (VObj [("title", VStr "b")]).
Proof.
  exact (proj1 (proj2 (last_write_decides_method_and_body "/api" "chats"
                         (VObj [("title", VStr "b")])
                         [Insert (VObj [("title", VStr "a")])]
                         [Eq "id" (VStr "c1")] [] eq_refl eq_refl))).
Defined.

(** X6.  A terminal call is one request: awaiting the chain, [single],
    [maybeSingle] and the [eq] after [delete] each hand exactly one
    request to [fetch], the request of the chain, and change nothing else
    on the page, whatever the network answers. *)
Theorem terminal_call_sends_one_request
  (API_BASE : string) (net : transport) (b : builder_t) (w : world) :
  snd (builder.await API_BASE net b w) = log_request (run_request API_BASE b) w /\
  snd (builder.single API_BASE net b w) = log_request (run_request API_BASE b) w /\
  snd (builder.maybeSingle API_BASE net b w)
  = log_request (run_request API_BASE b) w /\
  (forall column v,
     snd (builder.delete_eq API_BASE net column v (builder.delete b) w)
     = log_request
         (run_request API_BASE (builder.eq column v (builder.delete b))) w /\
     req_method (run_request API_BASE (builder.eq column v (builder.delete b)))
     = Some "DELETE" /\
     req_body (run_request API_BASE (builder.eq column v (builder.delete b)))
     = None).
Proof.
  repeat apply conj.
  - now rewrite await_spec, run_spec.
  - unfold builder.single, bind. rewrite run_spec.
    destruct (api_settle _) as [r|e]; [|reflexivity]. simpl.
    destruct (truthy (error r)); [reflexivity|].
    destruct (is_array (data r)); reflexivity.
  - unfold builder.maybeSingle, bind. rewrite run_spec.
    destruct (api_settle _) as [r|e]; [|reflexivity]. simpl.
    destruct (truthy (error r)); [reflexivity|].
    destruct (is_array (data r)); reflexivity.
  - intros column v. unfold builder.delete_eq. rewrite run_spec.
    repeat split.
Qed.

End RequestProperties.

(* ================================================================== *)
(** * Further properties of api and of the one-shot calls              *)
(* ================================================================== *)

Section ApiProperties.
Import Js Http Page.

(** X7.  What [api] resolves to never carries both data and error: an ok
    response gives error null, a response that is not ok gives data null,
    and its error is truthy as soon as the status text is not empty. *)
Theorem api_result_is_data_or_error (res : response) (r : result) :
  api_finish res = Resolved r ->
  (res_ok res = true -> error r = VNull) /\
  (res_ok res = false ->
   data r = VNull /\
   (res_statusText res <> EmptyString -> truthy (error r) = true)).
Proof.
  unfold api_finish. intros H.
  destruct (if match res_content_type res with
               | Some ct => includes "application/json" ct
               | None => false
               end
            then res_json res
            else match res_text res with
                 | Resolved s => Resolved (VStr s)
                 | Rejected e => Rejected e
                 end) as [d|e]; [|discriminate].
  destruct (res_ok res); simpl in H; injection H as <-; simpl.
  - split; [reflexivity | discriminate].
  - split; [discriminate|]. intros _. split; [reflexivity|].
    intros Hst. unfold or_else at 1.
    destruct (truthy (and_then d (or_else (get_prop d "error") d))) eqn:E.
    + exact E.
    + simpl. apply String.eqb_neq in Hst. now rewrite Hst.
Qed.

Lemma api_result_is_data_or_error_witness :
  truthy (error {| data := VNull; error := VStr "invalid credentials" |}) = true.
Proof.
  refine (proj2 (proj2 (api_result_is_data_or_error
            {| res_ok := false; res_statusText := "Unauthorized";
               res_content_type := Some "application/json";
               res_json := Resolved (VObj [("error", VStr "invalid credentials")]);
               res_text := Resolved EmptyString |}
            {| data := VNull; error := VStr "invalid credentials" |}
            eq_refl) eq_refl) _).
  discriminate.
Defined.

(** The error [api] reads off a JSON body with a truthy error field. *)
Lemma api_finish_error_field (res : response) (props : list (string * value))
  (e : value) :
  res_ok res = false -> is_json res = true ->
  res_json res = Resolved (VObj props) ->
  lookup "error" props = Some e -> truthy e = true ->
  api_finish res = Resolved {| data := VNull; error := e |}.
Proof.
  unfold is_json, api_finish. intros Hok Hjson Hd Hl He.
  rewrite Hjson, Hd, Hok. simpl. rewrite Hl.
  unfold or_else, and_then. simpl. rewrite He. simpl. now rewrite He.
Qed.

(** X8.  A refused sign-in or sign-up changes nothing: on a response that
    is not ok and whose JSON body has a truthy error field [e], both
    calls resolve to data null and error [e], and the cached session, the
    subscriptions and the record of notifications are as before; the one
    request is all that happened. *)
Theorem refused_credentials_leave_the_session
  (API_BASE : string) (net : transport) (c : credentials) (w : world)
  (res : response) (props : list (string * value)) (e : value) :
  res_ok res = false -> is_json res = true ->
  res_json res = Resolved (VObj props) ->
  lookup "error" props = Some e -> truthy e = true ->
  (net (sent w)
       (api_request API_BASE "/auth/signin" (auth.post (auth.credentials_body c)))
   = FetchResponse res ->
   auth.signInWithPassword API_BASE net c w
   = (Resolved {| data := VNull; error := e |},
      log_request
        (api_request API_BASE "/auth/signin" (auth.post (auth.credentials_body c)))
        w)) /\
  (net (sent w)
       (api_request API_BASE "/auth/signup" (auth.post (auth.credentials_body c)))
   = FetchResponse res ->
   auth.signUp API_BASE net c w
   = (Resolved {| data := VNull; error := e |},
      log_request
        (api_request API_BASE "/auth/signup" (auth.post (auth.credentials_body c)))
        w)).
Proof.
  intros Hok Hjson Hd Hl He.
  pose proof (api_finish_error_field res props e Hok Hjson Hd Hl He) as Hfin.
  split; intros Hnet.
  - unfold auth.signInWithPassword, bind.
    rewrite api_spec, Hnet. simpl api_settle. rewrite Hfin. simpl.
    rewrite He. reflexivity.
  - unfold auth.signUp, bind.
    rewrite api_spec, Hnet. simpl api_settle. rewrite Hfin. simpl.
    rewrite He. reflexivity.
Qed.

End ApiProperties.

Section ApiWitnesses.
Import Js Http Page.

Lemma refused_credentials_leave_the_session_witness :
  fst (auth.signInWithPassword "/api" (always refusal) dev_credentials signed_in_page)
  = Resolved {| data := VNull; error := VStr "invalid credentials" |} /\
  __currentSession
    (snd (auth.signInWithPassword "/api" (always refusal) dev_credentials
            signed_in_page))
  = u1_session.
Proof.
  pose proof (proj1 (refused_credentials_leave_the_session "/api" (always refusal)
                       dev_credentials signed_in_page refusal
                       [("error", VStr "invalid credentials")]
                       (VStr "invalid credentials")
                       eq_refl eq_refl eq_refl eq_refl eq_refl) eq_refl) as H.
  rewrite H. split; reflexivity.
Defined.

End ApiWitnesses.

Section SessionCacheProperties.
Import Js Http Page.

(** X9.  [signOut] clears the cached session whenever the server answers
    in a form [api] can read, ok or not, and resolves to an object whose
    error is the error of [api] when truthy and null otherwise.  When
    [api] rejects (the network is down, the body does not parse) the call
    rejects and the cached session is kept. *)
Theorem sign_out_clears_the_cache_when_answered
  (API_BASE : string) (net : transport) (w : world) :
  (forall r,
     api_settle (net (sent w) (api_request API_BASE "/auth/signout" (auth.post None)))
     = Resolved r ->
     fst (auth.signOut API_BASE net w)
     = Resolved (VObj [("error", if truthy (error r) then error r else VNull)]) /\
     __currentSession (snd (auth.signOut API_BASE net w)) = VNull) /\
  (forall e,
     api_settle (net (sent w) (api_request API_BASE "/auth/signout" (auth.post None)))
     = Rejected e ->
     fst (auth.signOut API_BASE net w) = Rejected e /\
     __currentSession (snd (auth.signOut API_BASE net w)) = __currentSession w).
Proof.
  split; intros x Hx; unfold auth.signOut, bind; rewrite api_spec, Hx; simpl.
  - destruct (truthy (error x)); split; reflexivity.
  - split; reflexivity.
Qed.

(** X10.  [getUser] never writes the cached session, for any answer of
    the network; [getSession] writes it whenever [api] resolves, with the
    session read off the data, so that an answer that is not ok (data
    null) sets the cache to null, whoever was signed in. *)
Theorem get_user_reads_get_session_writes
  (API_BASE : string) (net : transport) (w : world) :
  snd (auth.getUser API_BASE net w)
  = log_request (api_request API_BASE "/auth/session" no_opts) w /\
  (forall r,
     api_settle (net (sent w) (api_request API_BASE "/auth/session" no_opts))
     = Resolved r ->
     fst (auth.getSession API_BASE net w)
     = Resolved {| data := VObj [("session", auth.session_of (data r))];
                   error := error r |} /\
     __currentSession (snd (auth.getSession API_BASE net w))
     = auth.session_of (data r)) /\
  (forall res r,
     net (sent w) (api_request API_BASE "/auth/session" no_opts) = FetchResponse res ->
     api_finish res = Resolved r -> res_ok res = false ->
     __currentSession (snd (auth.getSession API_BASE net w)) = VNull).
Proof.
  repeat apply conj.
  - unfold auth.getUser, bind. rewrite api_spec.
    destruct (api_settle _); reflexivity.
  - intros r Hr. unfold auth.getSession, bind. rewrite api_spec, Hr. simpl.
    split; reflexivity.
  - intros res r Hnet Hfin Hok.
    unfold auth.getSession, bind. rewrite api_spec, Hnet. simpl api_settle.
    rewrite Hfin. simpl.
    destruct (api_result_is_data_or_error res r Hfin) as [_ H].
    destruct (H Hok) as [-> _]. reflexivity.
Qed.

(** X11.  An ok response whose JSON body is null makes [signInWithPassword]
    and [signUp] reject with the TypeError of reading [user] off null;
    the cached session is not written. *)
Theorem null_body_rejects_sign_in
  (API_BASE : string) (net : transport) (c : credentials) (w : world)
  (res : response) :
  res_ok res = true -> is_json res = true -> res_json res = Resolved VNull ->
  (net (sent w)
       (api_request API_BASE "/auth/signin" (auth.post (auth.credentials_body c)))
   = FetchResponse res ->
   fst (auth.signInWithPassword API_BASE net c w) = Rejected type_error /\
   __currentSession (snd (auth.signInWithPassword API_BASE net c w))
   = __currentSession w) /\
  (net (sent w)
       (api_request API_BASE "/auth/signup" (auth.post (auth.credentials_body c)))
   = FetchResponse res ->
   fst (auth.signUp API_BASE net c w) = Rejected type_error /\
   __currentSession (snd (auth.signUp API_BASE net c w)) = __currentSession w).
Proof.
  intros Hok Hjson Hd.
  pose proof (api_finish_ok res VNull Hok Hjson Hd) as Hfin.
  split; intros Hnet.
  - unfold auth.signInWithPassword, bind.
    rewrite api_spec, Hnet. simpl api_settle. rewrite Hfin. simpl.
    split; reflexivity.
  - unfold auth.signUp, bind.
    rewrite api_spec, Hnet. simpl api_settle. rewrite Hfin. simpl.
    split; reflexivity.
Qed.

Lemma null_body_rejects_sign_in_witness :
  fst (auth.signInWithPassword "/api" (scripted [VNull]) dev_credentials
         signed_in_page)
  = Rejected type_error /\
  __currentSession
    (snd (auth.signInWithPassword "/api" (scripted [VNull]) dev_credentials
            signed_in_page))
  = u1_session.
Proof.
  exact (proj1 (null_body_rejects_sign_in "/api" (scripted [VNull]) dev_credentials
                  signed_in_page (json_ok VNull) eq_refl eq_refl eq_refl) eq_refl).
Defined.

Lemma stringify_or_empty_object (v : value) :
  exists s, JSON_stringify (or_else v (VObj [])) = Some s /\
            (truthy v = false -> s = "{}").
Proof.
  unfold or_else. destruct (truthy v) eqn:E.
  - destruct v as [| |b|n|s|l|o|nm msg]; simpl in *; try discriminate;
      try destruct b; try discriminate; eexists; (split; [reflexivity | discriminate]).
  - eexists. split; reflexivity.
Qed.

(** X12.  [rpc] and [functions.invoke] always POST a JSON body: the
    JSON of the argument when it is truthy, and the empty object when the
    argument is left out, null or otherwise falsy.  Each is one request
    and changes nothing else on the page. *)
Theorem rpc_and_invoke_always_post_a_body
  (API_BASE : string) (net : transport) (name : string) (arg : value) (w : world) :
  exists s : string,
    JSON_stringify (or_else arg (VObj [])) = Some s /\
    (truthy arg = false -> s = "{}") /\
    snd (supabase.rpc API_BASE net name arg w)
    = log_request
        (api_request API_BASE ("/rpc/" ++ name)
           {| opt_method := Some "POST"; opt_body := Some (BodyText s);
              opt_headers := None |}) w /\
    snd (supabase.functions_invoke API_BASE net name arg w)
    = log_request
        (api_request API_BASE ("/functions/" ++ name)
           {| opt_method := Some "POST"; opt_body := Some (BodyText s);
              opt_headers := None |}) w.
Proof.
  destruct (stringify_or_empty_object arg) as (s & Hs & Hfalsy).
  exists s. split; [exact Hs|]. split; [exact Hfalsy|].
  unfold supabase.rpc, supabase.functions_invoke, bind, auth.post, json_body.
  rewrite !api_spec, Hs. simpl option_map.
  split.
  - destruct (api_settle _) as [r|e]; [|reflexivity]. simpl.
    destruct (truthy (error r)); reflexivity.
  - destruct (api_settle _) as [r|e]; [|reflexivity]. simpl.
    destruct (truthy (error r)); reflexivity.
Qed.

(** X13.  An answer that is not ok is reported as a success when it has
    nothing to say: with an empty text body and an empty status text,
    [api] resolves to data null and the empty string as error, which is
    falsy, so [rpc], [functions.invoke] and [updateUser] resolve to data
    null and error null. *)
Theorem silent_failure_is_reported_as_success
  (API_BASE : string) (net : transport) (name : string) (arg : value) (w : world)
  (res : response) :
  res_ok res = false -> is_json res = false ->
  res_text res = Resolved EmptyString -> res_statusText res = EmptyString ->
  (forall r, net (sent w) r = FetchResponse res) ->
  api_finish res = Resolved {| data := VNull; error := VStr EmptyString |} /\
  fst (supabase.rpc API_BASE net name arg w)
  = Resolved {| data := VNull; error := VNull |} /\
  fst (supabase.functions_invoke API_BASE net name arg w)
  = Resolved {| data := VNull; error := VNull |} /\
  fst (auth.updateUser API_BASE net arg w)
  = Resolved {| data := VNull; error := VNull |}.
Proof.
  intros Hok Hjson Htext Hst Hnet.
  assert (Hfin : api_finish res
                 = Resolved {| data := VNull; error := VStr EmptyString |}).
  { unfold is_json in Hjson. unfold api_finish.
    rewrite Hjson, Htext, Hok, Hst. reflexivity. }
  split; [exact Hfin|].
  unfold supabase.rpc, supabase.functions_invoke, auth.updateUser, bind.
  rewrite !api_spec, !Hnet. simpl api_settle. rewrite Hfin. simpl.
  repeat split.
Qed.

End SessionCacheProperties.

Section SessionCacheWitnesses.
Import Js Http Page.

Lemma silent_failure_is_reported_as_success_witness :
  fst (supabase.rpc "/api" (always silent_failure) "reset_monthly_credits"
         VUndef fresh)
  = Resolved {| data := VNull; error := VNull |}.
Proof.
  exact (proj1 (proj2 (silent_failure_is_reported_as_success "/api"
                         (always silent_failure) "reset_monthly_credits" VUndef
                         fresh silent_failure eq_refl eq_refl eq_refl eq_refl
                         (fun r => eq_refl)))).
Defined.

End SessionCacheWitnesses.

(* ================================================================== *)
(** * Invariants of the page                                           *)
(* ================================================================== *)

Section ShapeFacts.
Import Js Http Page.
Local Open Scope async_scope.

Lemma session_of_shape (d : value) : session_shape (auth.session_of d).
Proof.
  unfold auth.session_of. destruct (truthy (get_prop_opt d "user")).
  - right. eexists. reflexivity.
  - now left.
Qed.

Lemma session_of_user_truthy (d u : value) :
  auth.session_of d = VObj [("user", u)] -> truthy u = true.
Proof.
  unfold auth.session_of, get_prop_opt.
  destruct (nullish d) eqn:En; simpl; [discriminate|].
  destruct (truthy (get_prop d "user")) eqn:E; [|discriminate].
  intros H. injection H as <-. exact E.
Qed.

Lemma shapely_ret {A} (a : A) : shapely (ret a).
Proof. intros w H. exact H. Qed.

Lemma shapely_settle {A} (o : outcome A) : shapely (settle o).
Proof. intros w H. exact H. Qed.

Lemma shapely_fetch (net : transport) (r : request) : shapely (fetch net r).
Proof. intros w H. exact H. Qed.

Lemma shapely_set (v : value) : session_shape v -> shapely (set_currentSession v).
Proof. intros Hv w _. exact Hv. Qed.

Lemma shapely_bind {A B} (m : Async A) (k : A -> Async B) :
  shapely m -> (forall a, shapely (k a)) -> shapely (bind m k).
Proof.
  intros Hm Hk w Hw. unfold bind.
  specialize (Hm w Hw). destruct (m w) as [[a|e] w1]; simpl in *.
  - now apply Hk.
  - exact Hm.
Qed.

Lemma shapely_if {A} (c : bool) (m1 m2 : Async A) :
  shapely m1 -> shapely m2 -> shapely (if c then m1 else m2).
Proof. now destruct c. Qed.

Lemma shapely_api (API_BASE : string) (net : transport) (path : string)
  (opts : api_opts) : shapely (api API_BASE net path opts).
Proof.
  unfold api. apply shapely_bind; [apply shapely_fetch | intros; apply shapely_settle].
Qed.

Lemma shapely_run (API_BASE : string) (net : transport) (b : builder_t) :
  shapely (run API_BASE net b).
Proof. unfold run. destruct (state.method (st b)); apply shapely_api. Qed.

Create HintDb shapely.
#[local] Hint Resolve shapely_ret shapely_settle shapely_fetch shapely_api
  shapely_run session_of_shape : shapely.

Ltac shapely_tac :=
  repeat first
    [ apply shapely_bind; [|intros ?]
    | apply shapely_if
    | apply shapely_set; solve [auto with shapely
                               | now left
                               | right; eexists; reflexivity]
    | solve [auto with shapely] ].

Lemma shapely_getUser API_BASE net : shapely (auth.getUser API_BASE net).
Proof. unfold auth.getUser. shapely_tac. Qed.

Lemma shapely_getSession API_BASE net : shapely (auth.getSession API_BASE net).
Proof. unfold auth.getSession. shapely_tac. Qed.

Lemma shapely_signInWithPassword API_BASE net c :
  shapely (auth.signInWithPassword API_BASE net c).
Proof. unfold auth.signInWithPassword. shapely_tac. Qed.

Lemma shapely_signUp API_BASE net c : shapely (auth.signUp API_BASE net c).
Proof. unfold auth.signUp. shapely_tac. Qed.

Lemma shapely_signOut API_BASE net : shapely (auth.signOut API_BASE net).
Proof. unfold auth.signOut. shapely_tac. Qed.

Lemma shapely_updateUser API_BASE net p : shapely (auth.updateUser API_BASE net p).
Proof. unfold auth.updateUser. shapely_tac. Qed.

End ShapeFacts.

Section PageInvariants.
Import Js Http Page.
Variable API_BASE : string.
Variable net : transport.

Lemma poll_resume_shape (sub : nat) (o : fetch_outcome) (w : world) :
  session_shape (__currentSession w) ->
  session_shape (__currentSession (auth.poll_resume sub o w)).
Proof.
  intros H. unfold auth.poll_resume.
  destruct (api_settle o) as [r|e]; [|exact H].
  destruct (nth_error (subscriptions w) sub); [|exact H].
  destruct (negb _); [apply session_of_shape | exact H].
Qed.

Lemma step_shape (w w' : world) (e : auth.event) :
  session_shape (__currentSession w) ->
  auth.step API_BASE net w e = Some w' ->
  session_shape (__currentSession w').
Proof.
  intros H Hstep.
  destruct e as [|s'|i|s'| | |c|c| |p|b]; simpl in Hstep.
  - injection Hstep as <-. exact H.
  - unfold auth.poll_begin in Hstep.
    destruct (nth_error (subscriptions w) s') as [t|]; [|discriminate].
    destruct (active t); [|discriminate]. injection Hstep as <-. exact H.
  - unfold auth.poll_settle in Hstep.
    destruct (nth_error (inflight w) i) as [[s' o]|]; [|discriminate].
    injection Hstep as <-. now apply poll_resume_shape.
  - injection Hstep as <-. unfold auth.unsubscribe.
    destruct (nth_error (subscriptions w) s'); exact H.
  - injection Hstep as <-. now apply shapely_getUser.
  - injection Hstep as <-. now apply shapely_getSession.
  - injection Hstep as <-. now apply shapely_signInWithPassword.
  - injection Hstep as <-. now apply shapely_signUp.
  - injection Hstep as <-. now apply shapely_signOut.
  - injection Hstep as <-. now apply shapely_updateUser.
  - injection Hstep as <-. now apply shapely_run.
Qed.

(** X14.  The cached session is replaced wholesale and keeps its form:
    on a page where it is null or an object with the one key user, it is
    so after every run of events (subscriptions, polls, the auth calls,
    chain runs), whatever the network answers. *)
Theorem cached_session_keeps_its_form
  (es : list auth.event) (w w' : world) :
  session_shape (__currentSession w) ->
  auth.exec API_BASE net w es = Some w' ->
  session_shape (__currentSession w').
Proof.
  revert w; induction es as [|e es IH]; intros w H Hexec; simpl in Hexec.
  - injection Hexec as <-. exact H.
  - destruct (auth.step API_BASE net w e) as [w1|] eqn:Hstep; [|discriminate].
    apply (IH w1); [eapply step_shape; eassumption | exact Hexec].
Qed.

Lemma poll_resume_tags (sub : nat) (o : fetch_outcome) (w : world) :
  Forall well_tagged (notified w) ->
  Forall well_tagged (notified (auth.poll_resume sub o w)).
Proof.
  intros H. unfold auth.poll_resume.
  destruct (api_settle o) as [r|e]; [|exact H].
  destruct (nth_error (subscriptions w) sub); [|exact H].
  destruct (negb _); [|exact H].
  simpl. apply Forall_app. split; [exact H|].
  constructor; [|constructor]. unfold well_tagged. simpl.
  destruct (session_of_shape (data r)) as [E | [u E]]; rewrite E.
  - right. split; reflexivity.
  - left. split; [reflexivity|]. exists u. split; [reflexivity|].
    eapply session_of_user_truthy. exact E.
Qed.

Lemma step_tags (w w' : world) (e : auth.event) :
  Forall well_tagged (notified w) ->
  auth.step API_BASE net w e = Some w' ->
  Forall well_tagged (notified w').
Proof.
  intros H Hstep.
  assert (Hquiet : forall w1, same_timers w w1 -> Forall well_tagged (notified w1)).
  { intros w1 (_ & _ & Hn). now rewrite Hn. }
  destruct e as [|s'|i|s'| | |c|c| |p|b]; simpl in Hstep.
  - injection Hstep as <-. exact H.
  - unfold auth.poll_begin in Hstep.
    destruct (nth_error (subscriptions w) s') as [t|]; [|discriminate].
    destruct (active t); [|discriminate]. injection Hstep as <-. exact H.
  - unfold auth.poll_settle in Hstep.
    destruct (nth_error (inflight w) i) as [[s' o]|]; [|discriminate].
    injection Hstep as <-. now apply poll_resume_tags.
  - injection Hstep as <-. unfold auth.unsubscribe.
    destruct (nth_error (subscriptions w) s'); exact H.
  - injection Hstep as <-. apply Hquiet, quiet_getUser.
  - injection Hstep as <-. apply Hquiet, quiet_getSession.
  - injection Hstep as <-. apply Hquiet, quiet_signInWithPassword.
  - injection Hstep as <-. apply Hquiet, quiet_signUp.
  - injection Hstep as <-. apply Hquiet, quiet_signOut.
  - injection Hstep as <-. apply Hquiet, quiet_updateUser.
  - injection Hstep as <-. apply Hquiet, quiet_run.
Qed.

(** X15.  Every callback invocation is tagged by its session: SIGNED_IN
    comes with an object whose user is truthy, SIGNED_OUT with null.
    This holds of every notification recorded in any run of events. *)
Theorem notifications_are_tagged_by_their_session
  (es : list auth.event) (w w' : world) :
  Forall well_tagged (notified w) ->
  auth.exec API_BASE net w es = Some w' ->
  Forall well_tagged (notified w').
Proof.
  revert w; induction es as [|e es IH]; intros w H Hexec; simpl in Hexec.
  - injection Hexec as <-. exact H.
  - destruct (auth.step API_BASE net w e) as [w1|] eqn:Hstep; [|discriminate].
    apply (IH w1); [eapply step_tags; eassumption | exact Hexec].
Qed.

End PageInvariants.

Section NoRepeat.
Import Js Http Page.
Local Open Scope list_scope.
Variable API_BASE : string.
Variable net : transport.

Lemma distinct_adjacent_snoc {A} (l : list A) (x : A) :
  distinct_adjacent l ->
  (forall l' y, l = l' ++ [y] -> y <> x) ->
  distinct_adjacent (l ++ [x]).
Proof.
  induction l as [|a l IH]; intros Hd Hlast; [exact I|].
  destruct l as [|b l'].
  - simpl. split; [|exact I]. apply (Hlast [] a). reflexivity.
  - destruct Hd as [Hab Hd]. split; [exact Hab|].
    apply IH; [exact Hd|].
    intros l'' y E. apply (Hlast (a :: l'') y). simpl. now rewrite E.
Qed.

Lemma length_set_nth {A} (i : nat) (x : A) (l : list A) :
  length (auth.set_nth i x l) = length l.
Proof.
  revert i; induction l as [|y l IH]; intros [|i]; simpl; auto.
Qed.

Lemma option_string_eqb_refl (a : option string) :
  auth.option_string_eqb a a = true.
Proof. destruct a; simpl; [apply String.eqb_refl | reflexivity]. Qed.

Lemma same_timers_coherent (w w' : world) :
  same_timers w w' -> coherent w -> coherent w'.
Proof.
  intros (Hs & _ & Hn) (Ha & Hb).
  unfold coherent, session_strings, auth.calls_of. rewrite Hs, Hn.
  split; assumption.
Qed.

(** The callback of a subscription that does not exist yet was never
    invoked. *)
Lemma no_calls_beyond (w : world) (sub : nat) :
  coherent w -> (length (subscriptions w) <= sub)%nat -> auth.calls_of sub w = [].
Proof.
  intros (Ha & _) Hle. unfold auth.calls_of.
  induction (notified w) as [|n l IH]; [reflexivity|]. simpl.
  assert (Hn : (n_callback n < length (subscriptions w))%nat)
    by (apply Ha; now left).
  destruct (Nat.eqb_spec (n_callback n) sub) as [E|E]; [lia|].
  apply IH. intros m Hm. apply Ha. now right.
Qed.

Lemma poll_resume_coherent (sub : nat) (o : fetch_outcome) (w : world) :
  coherent w -> coherent (auth.poll_resume sub o w).
Proof.
  intros Hw. unfold auth.poll_resume.
  destruct (api_settle o) as [r|e]; [|exact Hw].
  destruct (nth_error (subscriptions w) sub) as [t|] eqn:Ht; [|exact Hw].
  destruct (negb _) eqn:Hchg; [|exact Hw].
  apply negb_true_iff in Hchg.
  assert (Hne : JSON_stringify (auth.session_of (data r)) <> last t).
  { intros E. rewrite E, option_string_eqb_refl in Hchg. discriminate. }
  destruct Hw as (Ha & Hb).
  split.
  - simpl. rewrite length_set_nth. intros n [Hin | [<- | []]]%in_app_iff.
    + now apply Ha.
    + simpl. apply nth_error_Some. congruence.
  - intros j s Hj. simpl in Hj. rewrite nth_error_set_nth, Ht in Hj.
    unfold session_strings, auth.calls_of. simpl notified.
    rewrite filter_app, map_app. simpl filter.
    destruct (Nat.eqb_spec sub j) as [<-|Hjs].
    + injection Hj as <-. simpl.
      destruct (Hb sub t Ht) as (Hd & Hl).
      split.
      * apply distinct_adjacent_snoc; [exact Hd|].
        intros l' y E. rewrite (Hl l' y E). congruence.
      * intros l y E. apply app_inj_tail in E as [_ <-]. reflexivity.
    + simpl. rewrite app_nil_r. now apply Hb.
Qed.

Lemma step_coherent (w w' : world) (e : auth.event) :
  coherent w -> auth.step API_BASE net w e = Some w' -> coherent w'.
Proof.
  intros Hw Hstep.
  destruct e as [|s'|i|s'| | |c|c| |p|b]; simpl in Hstep.
  - (* a new subscription *)
    injection Hstep as <-. pose proof Hw as (Ha & Hb). split.
    + simpl. rewrite length_app. simpl. intros n Hn. specialize (Ha n Hn). lia.
    + intros j s Hj. simpl in Hj.
      unfold session_strings, auth.calls_of. simpl notified.
      fold (auth.calls_of j w). fold (session_strings j w).
      destruct (Nat.lt_ge_cases j (length (subscriptions w))) as [Hlt|Hge].
      * rewrite nth_error_app1 in Hj by exact Hlt. now apply Hb.
      * unfold session_strings. rewrite (no_calls_beyond w j Hw Hge). simpl.
        split; [exact I|]. intros [|? ?] y E; discriminate E.
  - unfold auth.poll_begin in Hstep.
    destruct (nth_error (subscriptions w) s') as [t|]; [|discriminate].
    destruct (active t); [|discriminate]. injection Hstep as <-. exact Hw.
  - unfold auth.poll_settle in Hstep.
    destruct (nth_error (inflight w) i) as [[s' o]|]; [|discriminate].
    injection Hstep as <-. apply poll_resume_coherent. exact Hw.
  - injection Hstep as <-. unfold auth.unsubscribe.
    destruct (nth_error (subscriptions w) s') as [t|] eqn:Ht; [|exact Hw].
    destruct Hw as (Ha & Hb). split.
    + simpl. rewrite length_set_nth. exact Ha.
    + intros j s Hj. simpl in Hj. rewrite nth_error_set_nth, Ht in Hj.
      unfold session_strings, auth.calls_of. simpl notified.
      fold (auth.calls_of j w). fold (session_strings j w).
      destruct (Nat.eqb_spec s' j) as [<-|_].
      * injection Hj as <-. simpl. now apply Hb.
      * now apply Hb.
  - injection Hstep as <-. eapply same_timers_coherent; [apply quiet_getUser | exact Hw].
  - injection Hstep as <-. eapply same_timers_coherent; [apply quiet_getSession | exact Hw].
  - injection Hstep as <-.
    eapply same_timers_coherent; [apply quiet_signInWithPassword | exact Hw].
  - injection Hstep as <-. eapply same_timers_coherent; [apply quiet_signUp | exact Hw].
  - injection Hstep as <-. eapply same_timers_coherent; [apply quiet_signOut | exact Hw].
  - injection Hstep as <-. eapply same_timers_coherent; [apply quiet_updateUser | exact Hw].
  - injection Hstep as <-. eapply same_timers_coherent; [apply quiet_run | exact Hw].
Qed.

(** X16.  A callback is never given the same session twice in a row: in
    every run of events from a coherent page (a freshly loaded one, for
    instance), the sessions handed to the callback of any subscription
    differ, as JSON text, from one invocation to the next, whatever the
    network answers and however polls of several subscribers interleave. *)
Theorem callback_never_told_the_same_session_twice
  (es : list auth.event) (w w' : world) :
  coherent w ->
  auth.exec API_BASE net w es = Some w' ->
  coherent w' /\
  forall sub, distinct_adjacent (session_strings sub w').
Proof.
  revert w; induction es as [|e es IH]; intros w Hw Hexec; simpl in Hexec.
  - injection Hexec as <-. split; [exact Hw|].
    intros sub.
    destruct (nth_error (subscriptions w) sub) as [s|] eqn:Hs.
    + now apply (proj2 Hw sub s).
    + apply nth_error_None in Hs. unfold session_strings.
      rewrite (no_calls_beyond w sub Hw Hs). exact I.
  - destruct (auth.step API_BASE net w e) as [w1|] eqn:Hstep; [|discriminate].
    apply (IH w1); [eapply step_coherent; eassumption | exact Hexec].
Qed.

Lemma fresh_is_coherent : coherent fresh.
Proof.
  split.
  - intros n [].
  - intros [|sub] s H; discriminate H.
Qed.

End NoRepeat.

Section InvariantWitnesses.
Import Js Http Page.

Lemma cached_session_keeps_its_form_witness :
  session_shape (__currentSession fresh) /\
  exists w' : world,
    auth.exec "/api" (scripted [u1_body; u1_body; VNull]) fresh busy_run = Some w' /\
    session_shape (__currentSession w').
Proof.
  assert (H : session_shape (__currentSession fresh)) by (now left).
  split; [exact H|].
  eexists. split; [vm_compute; reflexivity|].
  exact (cached_session_keeps_its_form "/api" (scripted [u1_body; u1_body; VNull])
           busy_run fresh _ H eq_refl).
Defined.

Lemma notifications_are_tagged_by_their_session_witness :
  Forall well_tagged (notified fresh) /\
  exists w' : world,
    auth.exec "/api" (scripted [u1_body; u1_body; VNull]) fresh busy_run = Some w' /\
    Forall well_tagged (notified w').
Proof.
  assert (H : Forall well_tagged (notified fresh)) by constructor.
  split; [exact H|].
  eexists. split; [vm_compute; reflexivity|].
  exact (notifications_are_tagged_by_their_session "/api"
           (scripted [u1_body; u1_body; VNull]) busy_run fresh _ H eq_refl).
Defined.

Lemma callback_never_told_the_same_session_twice_witness :
  coherent fresh /\
  exists w' : world,
    auth.exec "/api" (scripted four_answers) fresh
      (auth.EvSubscribe :: ticks 0 0 4) = Some w' /\
    session_strings 0 w' = [JSON_stringify u1_session; Some "null"] /\
    distinct_adjacent (session_strings 0 w').
Proof.
  split; [exact fresh_is_coherent|].
  eexists. split; [vm_compute; reflexivity|]. split; [vm_compute; reflexivity|].
  match goal with
  | |- distinct_adjacent (session_strings 0 ?w') =>
      assert (E : auth.exec "/api" (scripted four_answers) fresh
                    (auth.EvSubscribe :: ticks 0 0 4) = Some w')
        by (vm_compute; reflexivity);
      exact (proj2 (callback_never_told_the_same_session_twice "/api"
                      (scripted four_answers) (auth.EvSubscribe :: ticks 0 0 4)
                      fresh w' fresh_is_coherent E) 0%nat)
  end.
Defined.

End InvariantWitnesses.

(* ================================================================== *)
(** * Further properties of subscriptions and polls                    *)
(* ================================================================== *)

Section PollProperties.
Import Js Http Page.
Local Open Scope list_scope.
Variable API_BASE : string.
Variable net : transport.

Lemma set_nth_twice {A} (i : nat) (x y : A) (l : list A) :
  auth.set_nth i x (auth.set_nth i y l) = auth.set_nth i x l.
Proof.
  revert i; induction l as [|a l IH]; intros [|i]; simpl; try reflexivity.
  now rewrite IH.
Qed.

(** X17.  [unsubscribe] clears the timer of its own subscription and
    touches nothing else: calling it again changes nothing, a handle of
    no subscription is a no-op, every other subscription, the cached
    session, the polls in flight and the record of notifications are as
    before, no request is sent, and the interval of the subscription
    cannot fire any more. *)
Theorem unsubscribe_clears_one_timer (sub : nat) (w : world) :
  auth.unsubscribe sub (auth.unsubscribe sub w) = auth.unsubscribe sub w /\
  (length (subscriptions w) <= sub -> auth.unsubscribe sub w = w)%nat /\
  (forall j, j <> sub ->
     nth_error (subscriptions (auth.unsubscribe sub w)) j
     = nth_error (subscriptions w) j) /\
  (sent (auth.unsubscribe sub w) = sent w /\
   __currentSession (auth.unsubscribe sub w) = __currentSession w /\
   inflight (auth.unsubscribe sub w) = inflight w /\
   notified (auth.unsubscribe sub w) = notified w) /\
  auth.step API_BASE net (auth.unsubscribe sub w) (auth.EvTick sub) = None.
Proof.
  destruct (nth_error (subscriptions w) sub) as [s|] eqn:Hs.
  - assert (Hu : auth.unsubscribe sub w
                 = {| sent := sent w; __currentSession := __currentSession w;
                      subscriptions :=
                        auth.set_nth sub {| last := last s; active := false |}
                                     (subscriptions w);
                      inflight := inflight w; notified := notified w |}).
    { unfold auth.unsubscribe. now rewrite Hs. }
    assert (Hnth : nth_error (subscriptions (auth.unsubscribe sub w)) sub
                   = Some {| last := last s; active := false |}).
    { rewrite Hu. simpl. now rewrite nth_error_set_nth, Nat.eqb_refl, Hs. }
    repeat apply conj.
    + unfold auth.unsubscribe at 1. rewrite Hnth. rewrite Hu at 1 2 3 4 5.
      simpl. rewrite set_nth_twice. symmetry. exact Hu.
    + intros Hle. apply nth_error_None in Hle. congruence.
    + intros j Hj. rewrite Hu. simpl. rewrite nth_error_set_nth.
      destruct (Nat.eqb_spec sub j); [congruence | reflexivity].
    + now rewrite Hu.
    + now rewrite Hu.
    + now rewrite Hu.
    + now rewrite Hu.
    + simpl. unfold auth.poll_begin. now rewrite Hnth.
  - assert (Hu : auth.unsubscribe sub w = w).
    { unfold auth.unsubscribe. now rewrite Hs. }
    rewrite !Hu. repeat apply conj; try reflexivity.
    simpl. unfold auth.poll_begin. now rewrite Hs.
Qed.

(** X18.  A poll that fails is silent: when the [api] call of a poll in
    flight rejects (the network is down, the body cannot be read), the
    settling of that poll invokes no callback and changes neither the
    cached session nor any subscription; the poll only leaves the flight. *)
Theorem failed_poll_is_silent
  (w : world) (i sub : nat) (o : fetch_outcome) (e : value) :
  nth_error (inflight w) i = Some (sub, o) ->
  api_settle o = Rejected e ->
  auth.step API_BASE net w (auth.EvSettle i) = Some (without_poll i w).
Proof.
  intros Hi Ho. simpl. unfold auth.poll_settle. rewrite Hi.
  unfold auth.poll_resume. rewrite Ho. reflexivity.
Qed.

Lemma option_string_eqb_neq (a b : option string) :
  a <> b -> auth.option_string_eqb a b = false.
Proof.
  destruct a as [x|], b as [y|]; simpl; intros H; try reflexivity.
  - apply String.eqb_neq. congruence.
  - congruence.
Qed.

(** X19.  A server error reads as a sign-out: when a poll is answered
    with a response that is not ok, [api] gives data null, the session
    read off it is null, and a subscriber whose last seen session was not
    null is told SIGNED_OUT with null, the cached session becoming null. *)
Theorem failed_status_signs_the_subscriber_out
  (w : world) (i sub : nat) (res : response) (r : result) (s : subscription) :
  nth_error (inflight w) i = Some (sub, FetchResponse res) ->
  res_ok res = false -> api_finish res = Resolved r ->
  nth_error (subscriptions w) sub = Some s ->
  last s <> Some "null"%string ->
  exists w' : world,
    auth.step API_BASE net w (auth.EvSettle i) = Some w' /\
    notified w' = notified w ++ [signed_out sub] /\
    __currentSession w' = VNull.
Proof.
  intros Hi Hok Hfin Hs Hlast.
  destruct (api_result_is_data_or_error res r Hfin) as [_ H].
  destruct (H Hok) as [Hdata _].
  simpl. unfold auth.poll_settle. rewrite Hi.
  unfold auth.poll_resume. simpl api_settle. rewrite Hfin. simpl subscriptions.
  rewrite Hs, Hdata.
  change (auth.session_of VNull) with VNull.
  change (JSON_stringify VNull) with (Some "null"%string).
  rewrite option_string_eqb_neq by congruence.
  eexists. split; [reflexivity|]. split; reflexivity.
Qed.

(** X20.  A new subscriber is not told what the cache already holds: when
    the first poll after [onAuthStateChange] reads the session that is
    cached at subscription, be it null or a user, no callback is invoked. *)
Theorem subscriber_is_not_told_the_cached_session (w : world) (r : result) :
  api_settle (net (sent w) (poll_request API_BASE)) = Resolved r ->
  auth.session_of (data r) = __currentSession w ->
  told_after API_BASE net w 1 = Some (notified w).
Proof.
  intros Hr Hsame.
  destruct w as [sent0 cur subs fl told]. simpl in *.
  unfold told_after, ticks. simpl subscriptions. simpl inflight. simpl notified.
  change (auth.EvSubscribe
            :: concat (repeat [auth.EvTick (length subs); auth.EvSettle (length fl)] 1))
    with ([auth.EvSubscribe]
            ++ [auth.EvTick (length subs); auth.EvSettle (length fl)]).
  rewrite exec_app.
  assert (Hlast : JSON_stringify (or_else cur VNull) = JSON_stringify cur).
  { rewrite <- Hsame. destruct (session_of_shape (data r)) as [E | [u E]];
      rewrite E; reflexivity. }
  assert (Hsub : auth.exec API_BASE net
            {| sent := sent0; __currentSession := cur; subscriptions := subs;
               inflight := fl; notified := told |} [auth.EvSubscribe]
          = Some {| sent := sent0; __currentSession := cur;
                    subscriptions :=
                      subs ++ [{| last := JSON_stringify cur; active := true |}];
                    inflight := fl; notified := told |}).
  { simpl. unfold auth.onAuthStateChange. simpl. now rewrite Hlast. }
  rewrite Hsub.
  rewrite (poll_round API_BASE net sent0 cur subs (JSON_stringify cur) fl told r Hr).
  rewrite Hsame, option_string_eqb_refl. reflexivity.
Qed.

End PollProperties.

Section PollWitnesses.
Import Js Http Page.

Lemma failed_poll_is_silent_witness :
  exists w0 : world,
    auth.exec "/api" (offline failed_to_fetch) signed_in_page
      [auth.EvSubscribe; auth.EvTick 0] = Some w0 /\
    nth_error (inflight w0) 0 = Some (0%nat, FetchRejected failed_to_fetch) /\
    auth.step "/api" (offline failed_to_fetch) w0 (auth.EvSettle 0)
    = Some (without_poll 0 w0) /\
    notified (without_poll 0 w0) = [] /\
    __currentSession (without_poll 0 w0) = u1_session.
Proof.
  eexists. split; [reflexivity|]. split; [reflexivity|].
  split; [|split; reflexivity].
  apply (failed_poll_is_silent "/api" (offline failed_to_fetch) _ 0 0
           (FetchRejected failed_to_fetch) failed_to_fetch);
    reflexivity.
Defined.

Lemma failed_status_signs_the_subscriber_out_witness :
  exists w0 w' : world,
    auth.exec "/api" (always refusal) signed_in_page
      [auth.EvSubscribe; auth.EvTick 0] = Some w0 /\
    auth.step "/api" (always refusal) w0 (auth.EvSettle 0) = Some w' /\
    notified w' = (notified w0 ++ [signed_out 0])%list /\
    __currentSession w' = VNull.
Proof.
  eexists.
  destruct (failed_status_signs_the_subscriber_out "/api" (always refusal)
              {| sent := [poll_request "/api"]; __currentSession := u1_session;
                 subscriptions := [{| last := JSON_stringify u1_session;
                                      active := true |}];
                 inflight := [(0%nat, FetchResponse refusal)]; notified := [] |}
              0 0 refusal
              {| data := VNull; error := VStr "invalid credentials" |}
              {| last := JSON_stringify u1_session; active := true |}
              eq_refl eq_refl eq_refl eq_refl)
    as (w' & Hstep & Htold & Hcur).
  - vm_compute. discriminate.
  - exists w'. split; [reflexivity|]. split; [exact Hstep|].
    split; [exact Htold | exact Hcur].
Defined.

Lemma subscriber_is_not_told_the_cached_session_witness :
  auth.session_of u1_body = __currentSession signed_in_page /\
  told_after "/api" (scripted [u1_body]) signed_in_page 1 = Some [].
Proof.
  split; [reflexivity|].
  exact (subscriber_is_not_told_the_cached_session "/api" (scripted [u1_body])
           signed_in_page {| data := u1_body; error := VNull |} eq_refl eq_refl).
Defined.

End PollWitnesses.

Section AuthRequests.
Import Js Http Page.
Local Open Scope list_scope.

Ltac settle_cases :=
  repeat match goal with
         | |- context [match ?o with Resolved _ => _ | Rejected _ => _ end] =>
             destruct o; simpl
         | |- context [if ?c then _ else _] => destruct c; simpl
         end.

(** X21.  Every call of the auth facade is one request: [getUser],
    [getSession], [signInWithPassword], [signUp], [signOut] and
    [updateUser] each hand exactly one request to [fetch], whatever the
    answer, to the session, signin, signup, signout and update_user
    endpoints, the last four by POST. *)
Theorem auth_call_sends_one_request
  (API_BASE : string) (net : transport) (w : world) :
  sent (snd (auth.getUser API_BASE net w))
  = sent w ++ [api_request API_BASE "/auth/session" no_opts] /\
  sent (snd (auth.getSession API_BASE net w))
  = sent w ++ [api_request API_BASE "/auth/session" no_opts] /\
  (forall c,
     sent (snd (auth.signInWithPassword API_BASE net c w))
     = sent w ++ [api_request API_BASE "/auth/signin"
                    (auth.post (auth.credentials_body c))]) /\
  (forall c,
     sent (snd (auth.signUp API_BASE net c w))
     = sent w ++ [api_request API_BASE "/auth/signup"
                    (auth.post (auth.credentials_body c))]) /\
  sent (snd (auth.signOut API_BASE net w))
  = sent w ++ [api_request API_BASE "/auth/signout" (auth.post None)] /\
  (forall p,
     sent (snd (auth.updateUser API_BASE net p w))
     = sent w ++ [api_request API_BASE "/auth/update_user"
                    (auth.post (json_body p))]).
Proof.
  repeat apply conj; intros;
    unfold auth.getUser, auth.getSession, auth.signInWithPassword, auth.signUp,
      auth.signOut, auth.updateUser, bind, settle, member, ret, set_currentSession;
    rewrite api_spec;
    destruct (api_settle _) as [r|e]; simpl; settle_cases; reflexivity.
Qed.

End AuthRequests.

(* ================================================================== *)
(** * Properties of localFlaskClient.ts and ensureSession.ts           *)
(* ================================================================== *)

Section FlaskProperties.
Import Js Http Page.
Local Open Scope list_scope.

Lemma flask_run_spec (net : transport) (url : localFlaskClient.URL)
  (method : string) (body : value) (w : world) :
  localFlaskClient.run net url method body w
  = (Resolved (flask_result (net (sent w) (flask_request url method body))),
     log_request (flask_request url method body) w).
Proof.
  unfold localFlaskClient.run, localFlaskClient.wrap, bind, fetch, settle.
  fold (flask_request url method body). unfold flask_result.
  destruct (net (sent w) (flask_request url method body)) as [e|res]; simpl.
  - reflexivity.
  - destruct (res_json res) as [j|e]; [|reflexivity].
    destruct (truthy (get_prop_opt j "error")); reflexivity.
Qed.

(** X22.  [run] of localFlaskClient never rejects and never looks at the
    HTTP status: it sends one request and resolves, whatever the network
    does.  The result has data null or error null.  A body that parses
    is the data unless it has a truthy error field, in which case the
    whole body is the error, be the response ok or not; a rejected fetch
    and a body that does not parse give their reason as the error. *)
Theorem flask_run_always_resolves
  (net : transport) (url : localFlaskClient.URL) (method : string)
  (body : value) (w : world) :
  (exists r : result,
     localFlaskClient.run net url method body w
     = (Resolved r, log_request (flask_request url method body) w) /\
     (data r = VNull \/ error r = VNull)) /\
  (forall res j,
     net (sent w) (flask_request url method body) = FetchResponse res ->
     res_json res = Resolved j ->
     fst (localFlaskClient.run net url method body w)
     = Resolved (if truthy (get_prop_opt j "error")
                 then {| data := VNull; error := j |}
                 else {| data := j; error := VNull |})) /\
  (forall res e,
     net (sent w) (flask_request url method body) = FetchResponse res ->
     res_json res = Rejected e ->
     fst (localFlaskClient.run net url method body w)
     = Resolved {| data := VNull; error := e |}).
Proof.
  rewrite flask_run_spec. repeat apply conj.
  - eexists. split; [reflexivity|].
    unfold flask_result.
    destruct (net (sent w) (flask_request url method body)) as [e|res];
      [now left|].
    destruct (res_json res) as [j|e]; [|now left].
    destruct (truthy (get_prop_opt j "error")); [now left | now right].
  - intros res j Hnet Hj. simpl. unfold flask_result. now rewrite Hnet, Hj.
  - intros res e Hnet Hj. simpl. unfold flask_result. now rewrite Hnet, Hj.
Qed.

Lemma getAll_params_set_other (name other val : string) (p : URLSearchParams) :
  other <> name ->
  getAll other (localFlaskClient.params_set name val p) = getAll other p.
Proof.
  intros Hne. unfold getAll.
  induction p as [|[n v] rest IH]; simpl.
  - apply String.eqb_neq in Hne. rewrite String.eqb_sym in Hne.
    now rewrite Hne.
  - destruct (String.eqb_spec n name) as [->|Hn]; simpl.
    + apply String.eqb_neq in Hne. rewrite String.eqb_sym in Hne.
      rewrite Hne. clear IH.
      induction rest as [|[n' v'] rest IH]; simpl; [reflexivity|].
      destruct (String.eqb_spec n' name) as [->|Hn']; simpl.
      * rewrite Hne. exact IH.
      * destruct (n' =? other); simpl; now rewrite IH.
    + destruct (n =? other); simpl; now rewrite IH.
Qed.

Lemma getAll_filter_out (name : string) (p : URLSearchParams) :
  getAll name (filter (fun nv => negb (fst nv =? name)) p) = [].
Proof.
  unfold getAll. induction p as [|[n v] rest IH]; simpl; [reflexivity|].
  destruct (n =? name) eqn:E; simpl; [exact IH|]. now rewrite E.
Qed.

Lemma getAll_params_set_same (name val : string) (p : URLSearchParams) :
  getAll name (localFlaskClient.params_set name val p) = [val].
Proof.
  induction p as [|[n v] rest IH]; simpl.
  - unfold getAll. simpl. now rewrite String.eqb_refl.
  - destruct (n =? name) eqn:E.
    + change (getAll name ((n, val) :: ?l)) with
        (map snd (filter (fun nv => fst nv =? name) ((n, val) :: l))).
      unfold getAll. simpl. rewrite E. simpl. f_equal.
      apply (getAll_filter_out name rest).
    + unfold getAll in *. simpl. rewrite E. exact IH.
Qed.

(** X23.  In the chain of localFlaskClient, a parameter is set, not
    added: after [eq(col, v)] the URL carries exactly one parameter for
    that column, with value [String(v)], whatever the URL carried for it
    before, and the parameters of every other name are as they were. *)
Theorem flask_eq_sets_one_parameter
  (col : string) (v : value) (f : localFlaskClient.from_t) :
  getAll ("eq." ++ col)
    (localFlaskClient.searchParams
       (localFlaskClient.url (localFlaskClient.eq col v f)))
  = [js_String v] /\
  (forall other,
     other <> ("eq." ++ col)%string ->
     getAll other
       (localFlaskClient.searchParams
          (localFlaskClient.url (localFlaskClient.eq col v f)))
     = getAll other
         (localFlaskClient.searchParams (localFlaskClient.url f))).
Proof.
  split.
  - apply getAll_params_set_same.
  - intros other Hne. now apply getAll_params_set_other.
Qed.

(** X24.  [ensureSession] on URLs the platform accepts never rejects.
    When the session endpoint reports a user it sends that one request
    and stops; otherwise, also when the endpoint cannot be reached, it
    sends three requests in this order: the session read, a sign-up and
    a sign-in with the development credentials, whatever the sign-up
    answers.  When the platform refuses the URL of the session endpoint,
    [ensureSession] rejects with what [new URL] throws and sends
    nothing. *)
Theorem ensure_session_signs_in_when_needed
  (new_URL : string -> completion localFlaskClient.URL)
  (baseUrl : string) (net : transport) (w : world) :
  (forall u_session u_signup u_signin,
     new_URL (baseUrl ++ "/auth/session")%string = Returned u_session ->
     new_URL (baseUrl ++ "/auth/signup")%string = Returned u_signup ->
     new_URL (baseUrl ++ "/auth/signin")%string = Returned u_signin ->
     fst (localFlaskClient.ensureSession new_URL baseUrl net w) = Resolved tt /\
     (truthy (get_prop_opt
                (data (flask_result (net (sent w) (session_request u_session))))
                "user") = true ->
      sent (snd (localFlaskClient.ensureSession new_URL baseUrl net w))
      = sent w ++ [session_request u_session]) /\
     (truthy (get_prop_opt
                (data (flask_result (net (sent w) (session_request u_session))))
                "user") = false ->
      sent (snd (localFlaskClient.ensureSession new_URL baseUrl net w))
      = sent w ++ [session_request u_session; signup_request u_signup;
                   signin_request u_signin])) /\
  (forall t,
     new_URL (baseUrl ++ "/auth/session")%string = Thrown t ->
     localFlaskClient.ensureSession new_URL baseUrl net w = (Rejected t, w)).
Proof.
  unfold localFlaskClient.ensureSession, localFlaskClient.session,
    localFlaskClient.signup, localFlaskClient.signin,
    localFlaskClient.run_at, localFlaskClient.endpoint.
  split.
  - intros u_session u_signup u_signin Hs Hu Hi. rewrite Hs, Hu, Hi.
    unfold await_call, bind.
    rewrite flask_run_spec. fold (session_request u_session).
    destruct (truthy (get_prop_opt
                        (data (flask_result (net (sent w) (session_request u_session))))
                        "user")).
    + repeat split. intros H; discriminate H.
    + rewrite !flask_run_spec. simpl.
      repeat split; [intros H; discriminate H|].
      intros _. rewrite <- !app_assoc. reflexivity.
  - intros t Ht. rewrite Ht. reflexivity.
Qed.

(** X25.  [storage.upload] of localFlaskClient is the one call that
    rejects: it resolves, with the parsed body, only when the platform
    accepts the URL, the response is ok and the body has no truthy error
    field; on a URL the platform accepts it rejects with the reason of
    [fetch] when the network is down, and with an Error carrying the
    status text when a response that is not ok has no error field; on a
    URL the platform refuses it rejects with what [new URL] throws and
    sends nothing. *)
Theorem flask_upload_resolves_only_on_success
  (new_URL : string -> completion localFlaskClient.URL)
  (baseUrl : string) (net : transport) (bucket path file : string) (w : world) :
  (forall j,
     fst (localFlaskClient.storage_upload new_URL baseUrl net bucket path file w)
     = Resolved j ->
     exists url res,
       new_URL (baseUrl ++ "/storage/" ++ bucket ++ "/upload")%string
       = Returned url /\
       net (sent w) (localFlaskClient.upload_request url path file)
       = FetchResponse res /\
       res_ok res = true /\
       res_json res = Resolved j /\ truthy (get_prop_opt j "error") = false) /\
  (forall e url,
     new_URL (baseUrl ++ "/storage/" ++ bucket ++ "/upload")%string
     = Returned url ->
     (forall r, net (sent w) r = FetchRejected e) ->
     fst (localFlaskClient.storage_upload new_URL baseUrl net bucket path file w)
     = Rejected e) /\
  (forall res j url,
     new_URL (baseUrl ++ "/storage/" ++ bucket ++ "/upload")%string
     = Returned url ->
     (forall r, net (sent w) r = FetchResponse res) ->
     res_ok res = false -> res_json res = Resolved j ->
     truthy (get_prop_opt j "error") = false ->
     fst (localFlaskClient.storage_upload new_URL baseUrl net bucket path file w)
     = Rejected (VError "Error" (res_statusText res))) /\
  (forall t,
     new_URL (baseUrl ++ "/storage/" ++ bucket ++ "/upload")%string = Thrown t ->
     localFlaskClient.storage_upload new_URL baseUrl net bucket path file w
     = (Rejected t, w)).
Proof.
  unfold localFlaskClient.storage_upload, localFlaskClient.endpoint,
    bind, attempt, fetch, settle, ret.
  repeat apply conj.
  - intros j H.
    destruct (new_URL (baseUrl ++ "/storage/" ++ bucket ++ "/upload")%string)
      as [url|t]; [|discriminate H].
    destruct (net (sent w) (localFlaskClient.upload_request url path file))
      as [e|res] eqn:Hnet; [discriminate H|].
    exists url, res.
    simpl in H. destruct (res_json res) as [j'|e]; [|discriminate H].
    simpl in H. destruct (res_ok res); simpl in H; [|discriminate H].
    destruct (truthy (get_prop_opt j' "error")) eqn:E; [discriminate H|].
    injection H as <-. repeat split; assumption.
  - intros e url Hurl Hdown. now rewrite Hurl, Hdown.
  - intros res j url Hurl Hnet Hok Hj Herr. rewrite Hurl, Hnet. simpl.
    rewrite Hj. simpl. rewrite Hok. simpl. unfold or_else. rewrite Herr.
    reflexivity.
  - intros t Hurl. now rewrite Hurl.
Qed.

Lemma flask_upload_resolves_only_on_success_witness :
  fst (localFlaskClient.storage_upload localhost_URL "http://localhost:5000"
         (offline failed_to_fetch) "avatars" "a.png" "bytes" fresh)
  = Rejected failed_to_fetch /\
  localFlaskClient.storage_upload localhost_URL "/api"
    (offline failed_to_fetch) "avatars" "a.png" "bytes" fresh
  = (Rejected (VError "TypeError" "Invalid URL"), fresh).
Proof.
  destruct (flask_upload_resolves_only_on_success localhost_URL
              "http://localhost:5000" (offline failed_to_fetch)
              "avatars" "a.png" "bytes" fresh) as (_ & Hdown & _ & _).
  destruct (flask_upload_resolves_only_on_success localhost_URL
              "/api" (offline failed_to_fetch)
              "avatars" "a.png" "bytes" fresh) as (_ & _ & _ & Hthrow).
  split.
  - exact (Hdown failed_to_fetch _ eq_refl (fun r => eq_refl)).
  - exact (Hthrow _ eq_refl).
Defined.

End FlaskProperties.

(* ================================================================== *)
(** * Properties of the URLs                                           *)
(* ================================================================== *)

Section UrlProperties.
Import Js Http Page.

Lemma strip_no_trailing_slash (s t : string) :
  strip_trailing_slashes s <> t ++ "/".
Proof.
  revert t; induction s as [|c rest IH]; intros t; simpl.
  - destruct t; discriminate.
  - destruct (Ascii.eqb c "/" && (strip_trailing_slashes rest =? EmptyString)) eqn:E.
    + destruct t; discriminate.
    + destruct t as [|c' t']; simpl; intros H; injection H as Hc Hr.
      * subst c. rewrite Hr in E. discriminate E.
      * apply (IH t'). exact Hr.
Qed.

Lemma strip_identity (s : string) :
  (forall t, s <> t ++ "/") -> strip_trailing_slashes s = s.
Proof.
  induction s as [|c rest IH]; intros H; simpl; [reflexivity|].
  assert (Hrest : strip_trailing_slashes rest = rest).
  { apply IH. intros t E. apply (H (String c t)). simpl. now rewrite E. }
  rewrite Hrest.
  destruct (Ascii.eqb_spec c "/") as [->|Hc]; simpl; [|reflexivity].
  destruct (String.eqb_spec rest EmptyString) as [->|Hr]; [|reflexivity].
  exfalso. apply (H EmptyString). reflexivity.
Qed.

(** X26.  The URL [api] hands to [fetch] never ends with a slash: the
    slashes that end base and path are dropped, all of them, and a URL
    that does not end with a slash is sent as it is.  So the chain on the
    empty table name goes to the URL of /db without a final slash. *)
Theorem request_url_never_ends_with_a_slash
  (API_BASE path : string) (opts : api_opts) :
  (forall t, req_url (api_request API_BASE path opts) <> t ++ "/") /\
  ((forall t, API_BASE ++ path <> t ++ "/") ->
   req_url (api_request API_BASE path opts) = API_BASE ++ path) /\
  strip_trailing_slashes (req_url (api_request API_BASE path opts))
  = req_url (api_request API_BASE path opts).
Proof.
  simpl. repeat apply conj.
  - intros t. apply strip_no_trailing_slash.
  - apply strip_identity.
  - apply strip_identity. intros t. apply strip_no_trailing_slash.
Qed.

Lemma hex_upper_unreserved (n : N) :
  (n < 16)%N -> uri_unreserved (hex_upper n) = true.
Proof.
  intros H.
  destruct n as [|p]; [reflexivity|].
  do 4 (try destruct p as [p|p|]); try reflexivity; exfalso; lia.
Qed.

Lemma uri_encode_char_safe (c : ascii) :
  string_forall uri_safe (uri_encode_char c) = true.
Proof.
  unfold uri_encode_char.
  destruct (uri_unreserved c) eqn:E.
  - simpl. unfold uri_safe. now rewrite E.
  - pose proof (N_ascii_bounded c) as Hb.
    assert (Hlo : uri_unreserved (hex_upper (N_of_ascii c mod 16)) = true).
    { apply hex_upper_unreserved. apply N.mod_lt. discriminate. }
    assert (Hhi : uri_unreserved (hex_upper (N_of_ascii c / 16)) = true).
    { apply hex_upper_unreserved. apply N.Div0.div_lt_upper_bound. exact Hb. }
    simpl. unfold uri_safe. rewrite Hlo, Hhi. reflexivity.
Qed.

Lemma string_forall_app (f : ascii -> bool) (a b : string) :
  string_forall f (a ++ b) = string_forall f a && string_forall f b.
Proof.
  induction a as [|c a IH]; simpl; [reflexivity|].
  now rewrite IH, andb_assoc.
Qed.

Lemma string_forall_weaken (f g : ascii -> bool) (s : string) :
  (forall c, f c = true -> g c = true) ->
  string_forall f s = true -> string_forall g s = true.
Proof.
  intros Hfg. induction s as [|c s IH]; simpl; [reflexivity|].
  intros H. apply andb_true_iff in H as [Hc Hs].
  now rewrite (Hfg c Hc), IH.
Qed.

(** X27.  [getPublicUrl] writes the path as one segment: the encoded path
    holds only letters, digits, the marks - _ . ! ~ * ' ( ) and the
    percent sign, so no slash, question mark, hash or ampersand of the
    path reaches the URL unescaped; the URL is the base, the storage
    prefix of the bucket, and that segment. *)
Theorem public_url_path_is_one_segment (API_BASE bucket path : string) :
  supabase.storage_getPublicUrl API_BASE bucket path
  = API_BASE ++ "/storage/" ++ bucket ++ "/public/" ++ encodeURIComponent path /\
  string_forall uri_safe (encodeURIComponent path) = true /\
  string_forall
    (fun c => negb (Ascii.eqb c "/" || Ascii.eqb c "?" || Ascii.eqb c "#"
                    || Ascii.eqb c "&"))
    (encodeURIComponent path) = true.
Proof.
  assert (Hsafe : string_forall uri_safe (encodeURIComponent path) = true).
  { induction path as [|c rest IH]; simpl; [reflexivity|].
    now rewrite string_forall_app, uri_encode_char_safe, IH. }
  split; [reflexivity|]. split; [exact Hsafe|].
  revert Hsafe. apply string_forall_weaken.
  intros c Hc.
  destruct (Ascii.eqb_spec c "/") as [->|_]; [discriminate Hc|].
  destruct (Ascii.eqb_spec c "?") as [->|_]; [discriminate Hc|].
  destruct (Ascii.eqb_spec c "#") as [->|_]; [discriminate Hc|].
  destruct (Ascii.eqb_spec c "&") as [->|_]; [discriminate Hc|].
  reflexivity.
Qed.

End UrlProperties.

(* ================================================================== *)
(** * How chained calls compose                                        *)
(* ================================================================== *)

Section Composition.
Import Js Http Page.

(** X28.  Calls that write different fields of the state commute: the
    builder after two such calls is the same in either order, so a chain
    may put its order, range, limit, filter and insert or update calls in
    any order and send the same request. *)
Theorem independent_calls_commute (b : builder_t) (c1 c2 : call) :
  independent c1 c2 = true ->
  apply_call (apply_call b c1) c2 = apply_call (apply_call b c2) c1.
Proof.
  destruct c1, c2; simpl; intros H; try reflexivity; discriminate H.
Qed.

Lemma independent_calls_commute_witness :
  independent (Limit 50) (Order "created_at" (Some {| ascending := Some false |}))
  = true /\
  chain "chats" [Limit 50; Order "created_at" (Some {| ascending := Some false |})]
  = chain "chats" [Order "created_at" (Some {| ascending := Some false |}); Limit 50].
Proof.
  split; [reflexivity|].
  exact (independent_calls_commute (makeQueryBuilder "chats") (Limit 50)
           (Order "created_at" (Some {| ascending := Some false |})) eq_refl).
Defined.

Lemma replace_key_same (k : string) (v : value) (o : list (string * value)) :
  lookup k o = Some v -> replace_key k v o = o.
Proof.
  induction o as [|[k' v'] o IH]; simpl; [reflexivity|].
  destruct (String.eqb_spec k k') as [->|Hne]; intros H.
  - now injection H as ->.
  - now rewrite IH.
Qed.

Lemma obj_set_twice (k : string) (v : value) (o : list (string * value)) :
  obj_set k v (obj_set k v o) = obj_set k v o.
Proof.
  assert (H : lookup k (obj_set k v o) = Some v)
    by (rewrite lookup_obj_set; now rewrite String.eqb_refl).
  unfold obj_set at 1. rewrite H. now apply replace_key_same.
Qed.

Lemma set_prototype_twice (v : value) (p : prototype) :
  set_prototype v (set_prototype v p) = set_prototype v p.
Proof. destruct v; reflexivity. Qed.

Lemma set_prototype_keeps_accessor (v : value) (p : prototype) :
  hides_proto_accessor v = false ->
  find_proto_key p = FoundAccessor ->
  find_proto_key (set_prototype v p) = FoundAccessor.
Proof.
  destruct v; simpl; intros Hv Hp; try assumption; try reflexivity;
    try discriminate Hv.
  destruct (lookup "__proto__" props); [discriminate Hv | reflexivity].
Qed.

Lemma obj_assign_twice (k : string) (v : value)
  (o : list (string * value)) (p : prototype) :
  (k =? "__proto__") && hides_proto_accessor v = false ->
  obj_assign k v (obj_assign k v (o, p)) = obj_assign k v (o, p).
Proof.
  intros H. unfold obj_assign. cbn [fst snd].
  destruct (k =? "__proto__") eqn:Hk; cbn [fst snd].
  - simpl in H.
    destruct (lookup k o) eqn:Hl; cbn [fst snd].
    + assert (E : lookup k (replace_key k v o) = Some v)
        by (rewrite lookup_replace_key, String.eqb_refl, Hl; reflexivity).
      rewrite E. now rewrite (replace_key_same _ _ _ E).
    + destruct (find_proto_key p) eqn:F; cbn [fst snd].
      * assert (E : lookup k (insert_key k v o) = Some v)
          by (rewrite lookup_insert_key by exact Hl; now rewrite String.eqb_refl).
        rewrite E. now rewrite (replace_key_same _ _ _ E).
      * rewrite Hl, (set_prototype_keeps_accessor _ _ H F).
        now rewrite set_prototype_twice.
      * assert (E : lookup k (insert_key k v o) = Some v)
          by (rewrite lookup_insert_key by exact Hl; now rewrite String.eqb_refl).
        rewrite E. now rewrite (replace_key_same _ _ _ E).
  - now rewrite obj_set_twice.
Qed.

(** X29.  Repeating a chained call changes nothing: the builder after the
    same call twice is the builder after it once, for every call, [eq]
    included, but for [eq("__proto__", v)] with [v] null or an object
    that has an own property [__proto__]. *)
Theorem repeated_call_is_idempotent (b : builder_t) (c : call) :
  rewires_prototype c = false ->
  apply_call (apply_call b c) c = apply_call b c.
Proof.
  destruct c; simpl; intros H; try reflexivity.
  unfold builder.eq, with_state. cbn [st state.filters state.filters_proto table].
  rewrite <- surjective_pairing. now rewrite obj_assign_twice.
Qed.

Lemma repeated_call_is_idempotent_witness :
  rewires_prototype (Eq "user_id" (VStr "u1")) = false /\
  chain "chats" [Eq "user_id" (VStr "u1"); Eq "user_id" (VStr "u1")]
  = chain "chats" [Eq "user_id" (VStr "u1")].
Proof.
  split; [reflexivity|].
  exact (repeated_call_is_idempotent (makeQueryBuilder "chats")
           (Eq "user_id" (VStr "u1")) eq_refl).
Defined.

(** The excepted call is not idempotent: [eq("__proto__", null)] first
    runs the setter of [Object.prototype], which leaves the filters with
    a null prototype, and then, repeated, creates an own property that
    goes out as a parameter. *)
Lemma repeated_eq_on_proto_key_differs :
  rewires_prototype (Eq "__proto__" VNull) = true /\
  chain "chats" [Eq "__proto__" VNull; Eq "__proto__" VNull]
  <> chain "chats" [Eq "__proto__" VNull] /\
  buildQS (st (chain "chats" [Eq "__proto__" VNull])) = EmptyString /\
  buildQS (st (chain "chats" [Eq "__proto__" VNull; Eq "__proto__" VNull]))
  = "?eq.__proto__=null"%string.
Proof.
  repeat apply conj; try reflexivity. discriminate.
Qed.

(** X30.  [api] declares a JSON body unless it is given a form: when the
    caller passes no headers, the request carries the one header
    Content-Type application/json exactly when its body is not a
    FormData, and no header at all when it is; credentials are always
    included.  So the storage upload is the one request of the client
    without a content type. *)
Theorem json_content_type_unless_form
  (API_BASE path : string) (opts : api_opts) (bucket file : string) :
  opt_headers opts = None ->
  (is_form (opt_body opts) = false ->
   req_headers (api_request API_BASE path opts)
   = [("Content-Type", "application/json")]) /\
  (is_form (opt_body opts) = true ->
   req_headers (api_request API_BASE path opts) = []) /\
  req_credentials (api_request API_BASE path opts) = "include" /\
  (forall net w,
     snd (supabase.storage_upload API_BASE net bucket path file w)
     = log_request
         {| req_url := strip_trailing_slashes
                         (API_BASE ++ "/storage/" ++ bucket ++ "/upload");
            req_method := Some "POST";
            req_headers := [];
            req_body := Some (BodyForm [("file", file); ("path", path)]);
            req_credentials := "include" |} w).
Proof.
  intros Hh. unfold api_request. simpl. rewrite Hh.
  repeat apply conj.
  - destruct (opt_body opts) as [[s|f]|]; simpl; intros H;
      try reflexivity; discriminate H.
  - destruct (opt_body opts) as [[s|f]|]; simpl; intros H;
      try reflexivity; discriminate H.
  - reflexivity.
  - intros net w. unfold supabase.storage_upload. rewrite api_spec. reflexivity.
Qed.

Lemma json_content_type_unless_form_witness :
  req_headers (api_request "/api" "/rpc/reset_monthly_credits"
                 (auth.post (json_body (VObj []))))
  = [("Content-Type", "application/json")].
Proof.
  exact (proj1 (json_content_type_unless_form "/api" "/rpc/reset_monthly_credits"
                  (auth.post (json_body (VObj []))) "avatars" "bytes" eq_refl)
           eq_refl).
Defined.

End Composition.

Section MoreWitnesses.
Import Js Http Page.

Lemma sign_out_clears_the_cache_when_answered_witness :
  __currentSession (snd (auth.signOut "/api" (always refusal) signed_in_page))
  = VNull /\
  __currentSession
    (snd (auth.signOut "/api" (offline failed_to_fetch) signed_in_page))
  = u1_session.
Proof.
  destruct (sign_out_clears_the_cache_when_answered "/api" (always refusal)
              signed_in_page) as [Hans _].
  destruct (sign_out_clears_the_cache_when_answered "/api" (offline failed_to_fetch)
              signed_in_page) as [_ Hrej].
  split.
  - exact (proj2 (Hans {| data := VNull; error := VStr "invalid credentials" |}
                       eq_refl)).
  - exact (proj2 (Hrej failed_to_fetch eq_refl)).
Defined.

Lemma get_user_reads_get_session_writes_witness :
  __currentSession (snd (auth.getUser "/api" (always refusal) signed_in_page))
  = u1_session /\
  __currentSession (snd (auth.getSession "/api" (always refusal) signed_in_page))
  = VNull.
Proof.
  destruct (get_user_reads_get_session_writes "/api" (always refusal) signed_in_page)
    as (Huser & _ & Hfail).
  split.
  - rewrite Huser. reflexivity.
  - exact (Hfail refusal {| data := VNull; error := VStr "invalid credentials" |}
             eq_refl eq_refl eq_refl).
Defined.

Lemma ensure_session_signs_in_when_needed_witness :
  sent (snd (localFlaskClient.ensureSession localhost_URL "http://localhost:5000"
               (scripted [u1_body]) fresh))
  = [session_request (localhost "http://localhost:5000/auth/session")] /\
  sent (snd (localFlaskClient.ensureSession localhost_URL "http://localhost:5000"
               (offline failed_to_fetch) fresh))
  = [session_request (localhost "http://localhost:5000/auth/session");
     signup_request (localhost "http://localhost:5000/auth/signup");
     signin_request (localhost "http://localhost:5000/auth/signin")] /\
  localFlaskClient.ensureSession localhost_URL "/api" (scripted [u1_body]) fresh
  = (Rejected (VError "TypeError" "Invalid URL"), fresh).
Proof.
  repeat apply conj.
  - destruct (ensure_session_signs_in_when_needed localhost_URL
                "http://localhost:5000" (scripted [u1_body]) fresh) as [H _].
    exact (proj1 (proj2 (H _ _ _ eq_refl eq_refl eq_refl)) eq_refl).
  - destruct (ensure_session_signs_in_when_needed localhost_URL
                "http://localhost:5000" (offline failed_to_fetch) fresh) as [H _].
    exact (proj2 (proj2 (H _ _ _ eq_refl eq_refl eq_refl)) eq_refl).
  - destruct (ensure_session_signs_in_when_needed localhost_URL
                "/api" (scripted [u1_body]) fresh) as [_ H].
    exact (H _ eq_refl).
Defined.

End MoreWitnesses.
